(** * howdy_bot: a shallow embedding of [bot.py]

    The bot is event-driven glue around a chat platform.  This development
    embeds the parts of [bot.py] that carry the bot's rules:

    - the text helpers ([contains_profanity], the fallback branch of
      [run_language_tool_check]),
    - the sqlite history table ([save_message_to_history],
      [load_history_for_channel]),
    - the handlers ([is_content_safe], [fetch_message_from_identifier],
      [cmd_kick], [cmd_timeout], [on_message]).

    Modelling choices.

    - A Python [str] is a [list ascii]: the UTF-8 bytes of the string, so
      a byte below 128 is an ASCII character and a byte of 128 or more is
      part of a non-ASCII one.  The character classes and case mappings of
      [Text] are those of Python for the ASCII characters.  Python's
      tables for the other characters ([str.lower], [str.capitalize],
      [\s], [\w], [str.isdigit]) are not part of [bot.py]; [Text] leaves
      every byte of 128 or more unchanged and in no class.  A property
      that depends on the class or the case of a character is therefore
      stated for ASCII text ([ascii_text]) or for ASCII neighbours, and
      [Unicode] below runs the fallback on an alphabet that has two
      non-ASCII characters with their Python case mappings.
    - Python [int] is [Z]; [int(s)] is [py_int], which raises on more than
      4300 digits.
    - External collaborators (moderation and completion services, the
      platform, the clock) are oracles gathered in a record [Env]; an
      oracle sees the events that happened so far, so two calls may answer
      differently.  A call that raises is an [outcome] [Raise].
    - Handlers run in a state monad over [World]: the history table and the
      chronological list of externally visible events.  Sending to the
      platform and writing to the table are taken to succeed; the source
      does not handle their failure. *)

From Stdlib Require Import Ascii String DecimalString.
From Stdlib Require Import List ZArith NArith Lia Bool Arith.
From Stdlib Require Import Permutation Sorted.
Import ListNotations.

(** ** Text: characters, classes and case *)

Module Text.

Definition text := list ascii.

(** A source literal. *)
Definition lit (s : string) : text := list_ascii_of_string s.

(** For reading results. *)
Definition show (t : text) : string := string_of_list_ascii t.

Definition code (c : ascii) : N := N_of_ascii c.

Definition in_range (lo hi : N) (c : ascii) : bool :=
  ((lo <=? code c) && (code c <=? hi))%N.

(** [str.isspace] and the regex class [\s] among the ASCII characters: TAB,
    LF, VT, FF, CR, the four separators FS GS RS US, and the space. *)
Definition isspace (c : ascii) : bool := in_range 9 13 c || in_range 28 32 c.

Definition isupper (c : ascii) : bool := in_range 65 90 c.
Definition islower (c : ascii) : bool := in_range 97 122 c.
Definition isdigit (c : ascii) : bool := in_range 48 57 c.

(** The regex class [\w] among the ASCII characters: letters, digits and
    the underscore. *)
Definition is_word (c : ascii) : bool :=
  isupper c || islower c || isdigit c || (code c =? 95)%N.

(** The lower-case and upper-case forms of an ASCII character. *)
Definition lower (c : ascii) : ascii :=
  if isupper c then ascii_of_N (code c + 32) else c.

Definition upper (c : ascii) : ascii :=
  if islower c then ascii_of_N (code c - 32) else c.

(** [str.lower], on ASCII text. *)
Definition str_lower (s : text) : text := map lower s.

(** [str.capitalize], on ASCII text: first character upper-cased, the rest
    lower-cased. *)
Definition capitalize (s : text) : text :=
  match s with
  | [] => []
  | c :: r => upper c :: map lower r
  end.

(** [str.isdigit] for the ASCII digits, false on the empty string. *)
Definition str_isdigit (s : text) : bool :=
  match s with
  | [] => false
  | _ => forallb isdigit s
  end.

Definition ascii_eqb (a b : ascii) : bool := (code a =? code b)%N.

Fixpoint text_eqb (a b : text) : bool :=
  match a, b with
  | [], [] => true
  | x :: a', y :: b' => ascii_eqb x y && text_eqb a' b'
  | _, _ => false
  end.

(** [a] is a prefix of [l]; the rest of [l] is returned. *)
Fixpoint strip_prefix (a l : text) : option text :=
  match a, l with
  | [], _ => Some l
  | x :: a', y :: l' => if ascii_eqb x y then strip_prefix a' l' else None
  | _ :: _, [] => None
  end.

Fixpoint lstrip (l : text) : text :=
  match l with
  | [] => []
  | c :: l' => if isspace c then lstrip l' else l
  end.

Fixpoint rstrip (l : text) : text :=
  match l with
  | [] => []
  | c :: l' =>
      match rstrip l' with
      | [] => if isspace c then [] else [c]
      | r => c :: r
      end
  end.

(** [str.strip()]: leading and trailing whitespace removed. *)
Definition strip (l : text) : text := rstrip (lstrip l).

(** [x or d] on an optional string: [None] and the empty string are falsy. *)
Definition py_or (x : option text) (d : text) : text :=
  match x with
  | Some (c :: r) => c :: r
  | _ => d
  end.

(** [str(z)] *)
Definition str_of_Z (z : Z) : text :=
  list_ascii_of_string (NilZero.string_of_int (Z.to_int z)).

(** The number that a string of decimal digits writes. *)
Definition digit_val (c : ascii) : Z := Z.of_N (code c) - 48.

Definition int_of_digits (s : text) : Z :=
  fold_left (fun acc c => 10 * acc + digit_val c)%Z s 0%Z.

(** [sys.get_int_max_str_digits()], CPython's default. *)
Definition int_max_str_digits : nat := 4300.

(** [int(s)] for a string of decimal digits: CPython raises [ValueError]
    when the string has more than [int_max_str_digits] digits, leading
    zeros included; [None] is the raise. *)
Definition py_int (s : text) : option Z :=
  if (length s <=? int_max_str_digits)%nat then Some (int_of_digits s) else None.

(** An ASCII character, and a text of ASCII characters only. *)
Definition is_ascii (c : ascii) : bool := (code c <? 128)%N.

Definition ascii_text (t : text) : bool := forallb is_ascii t.

End Text.

Export Text.

(** ** The fallback of [run_language_tool_check] *)

Module Repair.

(** [re.sub(r"\s+", " ", text)]: every maximal run of whitespace becomes one
    space.  [in_run] tells that the previous character was whitespace, so
    the run's space has been written already. *)
Fixpoint sub_ws (in_run : bool) (l : text) : text :=
  match l with
  | [] => []
  | c :: l' =>
      if isspace c
      then (if in_run then sub_ws true l' else " "%char :: sub_ws true l')
      else c :: sub_ws false l'
  end.

(** The class [[?.!,]]. *)
Definition is_punct (c : ascii) : bool :=
  ascii_eqb c "?" || ascii_eqb c "." || ascii_eqb c "!" || ascii_eqb c ",".

(** The class [[.?!]]. *)
Definition is_term (c : ascii) : bool :=
  ascii_eqb c "." || ascii_eqb c "?" || ascii_eqb c "!".

(** The whitespace run at the head of [l] (possibly empty) is directly
    followed by a punctuation mark. *)
Definition run_then_punct (l : text) : bool :=
  match lstrip l with
  | p :: _ => is_punct p
  | [] => false
  end.

(** [re.sub(r"\s+([?.!,])", r"\1", s)].  A match is a maximal whitespace run
    with the punctuation mark after it, and it is replaced by the mark: a
    whitespace character is dropped exactly when the rest of its run is
    followed by a mark. *)
Fixpoint sub_space_punct (l : text) : text :=
  match l with
  | [] => []
  | c :: l' =>
      if isspace c && run_then_punct l' then sub_space_punct l'
      else c :: sub_space_punct l'
  end.

Definition starts_with_space (l : text) : bool :=
  match l with
  | c :: _ => isspace c
  | [] => false
  end.

(** [re.split("([.?!]\s+)", s)], as the first part and the parts after it.
    A separator is a terminator followed by a maximal non-empty whitespace
    run; it is kept as a part of its own (the pattern has a group), so the
    parts alternate text, separator, text, ...  [in_sep] tells that the
    previous character belongs to a separator's whitespace run. *)
Fixpoint split_parts (in_sep : bool) (l : text) : text * list text :=
  match l with
  | [] => ([], if in_sep then [[]] else [])
  | c :: l' =>
      if in_sep && isspace c then
        let (p, ps) := split_parts true l' in (c :: p, ps)
      else if is_term c && starts_with_space l' then
        let (p, ps) := split_parts true l' in
        if in_sep then ([], [] :: (c :: p) :: ps) else ([], (c :: p) :: ps)
      else
        let (p, ps) := split_parts false l' in
        if in_sep then ([], (c :: p) :: ps) else (c :: p, ps)
  end.

Definition re_split (s : text) : list text :=
  let (p, ps) := split_parts false s in p :: ps.

(** The fallback lines of [run_language_tool_check], in order. *)
Definition fallback (t : text) : text :=
  let s := strip (sub_ws false t) in
  let s := sub_space_punct s in
  let parts := re_split s in
  concat (map capitalize parts).

(** The value of [s] before the split: the first two lines. *)
Definition normalize (t : text) : text :=
  sub_space_punct (strip (sub_ws false t)).

(** [run_language_tool_check].  [language_tool] is the optional module:
    [None] when the import failed, otherwise the corrector, which may
    raise ([None] as its result).  [is_article] is accepted and unused. *)
Definition run_language_tool_check
    (language_tool : option (text -> option text))
    (t : text) (is_article : bool) : text :=
  match language_tool with
  | Some tool =>
      match tool t with
      | Some new_text => new_text
      | None => fallback t
      end
  | None => fallback t
  end.

(** A character-by-character view of the split-capitalize-join lines, used
    to reason about them; [cap_go_spec] below proves it equal to them.
    [AtStart]: the next character opens the text; [InText]: inside a text
    part; [InSep]: inside the whitespace run of a separator. *)
Inductive cap_state := AtStart | InText | InSep.

Definition in_sep_state (st : cap_state) : bool :=
  match st with InSep => true | _ => false end.

Definition in_text_state (st : cap_state) : bool :=
  match st with InText => true | _ => false end.

Fixpoint cap_go (st : cap_state) (l : text) : text :=
  match l with
  | [] => []
  | c :: l' =>
      if in_sep_state st && isspace c then c :: cap_go InSep l'
      else if is_term c && starts_with_space l' then c :: cap_go InSep l'
      else (if in_text_state st then lower c else upper c) :: cap_go InText l'
  end.

(** The shape of a text after the first two fallback lines: whitespace is
    single spaces ([clean_ws]), none at either end, none before a
    punctuation mark ([no_run_punct]). *)
Fixpoint clean_ws (in_run : bool) (l : text) : bool :=
  match l with
  | [] => true
  | c :: l' =>
      if isspace c
      then negb in_run && ascii_eqb c " " && clean_ws true l'
      else clean_ws false l'
  end.

Fixpoint ends_with_space (l : text) : bool :=
  match l with
  | [] => false
  | c :: l' =>
      match l' with
      | [] => isspace c
      | _ => ends_with_space l'
      end
  end.

Fixpoint no_run_punct (l : text) : bool :=
  match l with
  | [] => true
  | c :: l' => negb (isspace c && run_then_punct l') && no_run_punct l'
  end.

Definition normal (l : text) : Prop :=
  clean_ws false l = true /\ starts_with_space l = false /\
  ends_with_space l = false /\ no_run_punct l = true.

(** [c'] is [c] with its case possibly changed. *)
Definition recased (c c' : ascii) : Prop := c' = c \/ c' = upper c \/ c' = lower c.

(** The character at index [i] of [s] opens a sentence: it is the first
    character, or it follows a terminator and one whitespace character. *)
Definition sentence_start (s : text) (i : nat) : bool :=
  match i with
  | 0 => true
  | 1 => false
  | S (S j) => is_term (nth j s " "%char) && isspace (nth (S j) s " "%char)
  end.

End Repair.

(** The fallback transform as the specification words it: collapse
    consecutive whitespace to one space, remove a space immediately before
    one of [?.!,], capitalize the first letter after each
    terminator-plus-whitespace boundary, every other character unchanged. *)
Module RepairSpec.

Definition collapse (t : text) : text := Repair.sub_ws false t.

Fixpoint remove_space_before_punct (l : text) : text :=
  match l with
  | [] => []
  | c :: l' =>
      match l' with
      | p :: _ =>
          if isspace c && Repair.is_punct p then remove_space_before_punct l'
          else c :: remove_space_before_punct l'
      | [] => [c]
      end
  end.

(** [after_term]: the previous character is a terminator; [boundary]: a
    terminator and at least one whitespace character have just been read. *)
Fixpoint capitalize_after_boundary (after_term boundary : bool) (l : text) : text :=
  match l with
  | [] => []
  | c :: l' =>
      if isspace c
      then c :: capitalize_after_boundary false (after_term || boundary) l'
      else (if boundary then upper c else c)
             :: capitalize_after_boundary (Repair.is_term c) false l'
  end.

(** No two whitespace characters in a row. *)
Fixpoint no_double_space (l : text) : bool :=
  match l with
  | [] => true
  | c :: l' => negb (isspace c && Repair.starts_with_space l') && no_double_space l'
  end.

(** No whitespace character directly before one of [?.!,]. *)
Fixpoint no_space_before_punct (l : text) : bool :=
  match l with
  | [] => true
  | c :: l' =>
      negb (isspace c && match l' with p :: _ => Repair.is_punct p | [] => false end)
      && no_space_before_punct l'
  end.

Definition spec_repair (t : text) : text :=
  capitalize_after_boundary false false
    (remove_space_before_punct (collapse t)).

End RepairSpec.

(** ** The fallback beyond ASCII *)

(** The fallback lines once more, over any alphabet: the functions of
    [Text] and [Repair] that the fallback uses, with the character classes
    and [str.capitalize] as parameters.  At the ASCII classes they are the
    functions of [Repair] ([RepairFacts.generic_fallback_ascii]). *)
Module Generic.

Section Alphabet.

Context {char : Type}.
Variables isspace is_punct is_term : char -> bool.
Variable space : char.
Variable capitalize : list char -> list char.

Fixpoint sub_ws (in_run : bool) (l : list char) : list char :=
  match l with
  | [] => []
  | c :: l' =>
      if isspace c
      then (if in_run then sub_ws true l' else space :: sub_ws true l')
      else c :: sub_ws false l'
  end.

Fixpoint lstrip (l : list char) : list char :=
  match l with
  | [] => []
  | c :: l' => if isspace c then lstrip l' else l
  end.

Fixpoint rstrip (l : list char) : list char :=
  match l with
  | [] => []
  | c :: l' =>
      match rstrip l' with
      | [] => if isspace c then [] else [c]
      | r => c :: r
      end
  end.

Definition strip (l : list char) : list char := rstrip (lstrip l).

Definition run_then_punct (l : list char) : bool :=
  match lstrip l with
  | p :: _ => is_punct p
  | [] => false
  end.

Fixpoint sub_space_punct (l : list char) : list char :=
  match l with
  | [] => []
  | c :: l' =>
      if isspace c && run_then_punct l' then sub_space_punct l'
      else c :: sub_space_punct l'
  end.

Definition starts_with_space (l : list char) : bool :=
  match l with
  | c :: _ => isspace c
  | [] => false
  end.

Fixpoint split_parts (in_sep : bool) (l : list char) : list char * list (list char) :=
  match l with
  | [] => ([], if in_sep then [[]] else [])
  | c :: l' =>
      if in_sep && isspace c then
        let (p, ps) := split_parts true l' in (c :: p, ps)
      else if is_term c && starts_with_space l' then
        let (p, ps) := split_parts true l' in
        if in_sep then ([], [] :: (c :: p) :: ps) else ([], (c :: p) :: ps)
      else
        let (p, ps) := split_parts false l' in
        if in_sep then ([], (c :: p) :: ps) else (c :: p, ps)
  end.

Definition re_split (s : list char) : list (list char) :=
  let (p, ps) := split_parts false s in p :: ps.

Definition fallback (t : list char) : list char :=
  let s := strip (sub_ws false t) in
  let s := sub_space_punct s in
  let parts := re_split s in
  concat (map capitalize parts).

End Alphabet.

End Generic.

(** Python strings over an alphabet that is closed under Python's case
    mappings and has characters whose case mapping changes the length of a
    string. *)
Module Unicode.

(** [Ch c] is the ASCII character [c].  U+0149 (LATIN SMALL LETTER N
    PRECEDED BY APOSTROPHE) is a lower-case letter whose upper-case and
    title-case form is the two characters U+02BC U+004E.  U+02BC (MODIFIER
    LETTER APOSTROPHE) has no case.  Neither is whitespace or one of
    [?.!,]. *)
Inductive char :=
  | Ch (c : ascii)
  | U0149
  | U02BC.

Definition isspace (c : char) : bool :=
  match c with Ch a => Text.isspace a | _ => false end.

Definition is_punct (c : char) : bool :=
  match c with Ch a => Repair.is_punct a | _ => false end.

Definition is_term (c : char) : bool :=
  match c with Ch a => Repair.is_term a | _ => false end.

(** The lower-case form of a character, as [str.lower] uses it. *)
Definition lower (c : char) : list char :=
  match c with
  | Ch a => [Ch (Text.lower a)]
  | U0149 => [U0149]
  | U02BC => [U02BC]
  end.

(** The title-case form of a character, as [str.capitalize] uses it for
    the first character. *)
Definition title (c : char) : list char :=
  match c with
  | Ch a => [Ch (Text.upper a)]
  | U0149 => [U02BC; Ch "N"]
  | U02BC => [U02BC]
  end.

Definition str_lower (s : list char) : list char := flat_map lower s.

(** [str.capitalize] *)
Definition capitalize (s : list char) : list char :=
  match s with
  | [] => []
  | c :: r => title c ++ str_lower r
  end.

(** The fallback lines of [run_language_tool_check]. *)
Definition fallback (t : list char) : list char :=
  Generic.fallback isspace is_punct is_term (Ch " ") capitalize t.

(** An ASCII text in this alphabet. *)
Definition of_text (t : text) : list char := map Ch t.

Definition has_space (t : list char) : bool := existsb isspace t.

End Unicode.


(** ** The history table *)

Module History.

Local Open Scope Z_scope.

(** A row of the [history] table; the table is the list of its rows in
    insertion (rowid) order. *)
Record Row := {
  channel_id : Z;
  role : text;
  content : text;
  created_at : Z
}.

Definition Table := list Row.

(** [save_message_to_history]; [now] is the value of [CURRENT_TIMESTAMP]
    that the column default takes at the insert. *)
Definition save_message_to_history
    (now : Z) (ch : Z) (r : text) (c : text) (t : Table) : Table :=
  t ++ [{| channel_id := ch; role := r; content := c; created_at := now |}].

Definition newer_first (a b : Row) : Prop := created_at b <= created_at a.
Definition older_first (a b : Row) : Prop := created_at a <= created_at b.

(** [ORDER BY created_at DESC] as the database engine computes it.  SQL
    fixes the result up to the order of rows with equal keys, so an engine
    is any function that returns the rows it was given, newest first. *)
Class SqlEngine := {
  order_by_created_at_desc : list Row -> list Row;
  order_perm : forall l, Permutation (order_by_created_at_desc l) l;
  order_sorted : forall l, StronglySorted newer_first (order_by_created_at_desc l)
}.

(** The rows of a channel. *)
Definition on_channel (ch : Z) (r : Row) : bool := channel_id r =? ch.

(** [LIMIT n]; a negative [n] means no limit. *)
Definition sql_limit (n : Z) (l : list Row) : list Row :=
  if n <? 0 then l else firstn (Z.to_nat n) l.

(** [SELECT ... WHERE channel_id = ? ORDER BY created_at DESC LIMIT ?], with
    the whole rows. *)
Definition select_recent `{SqlEngine} (ch : Z) (limit : Z) (t : Table) : list Row :=
  sql_limit limit
    (order_by_created_at_desc (filter (on_channel ch) t)).

Definition role_content (r : Row) : text * text := (role r, content r).

(** [load_history_for_channel]: the selected [(role, content)] pairs,
    reversed. *)
Definition load_history_for_channel `{SqlEngine}
    (ch : Z) (limit : Z) (t : Table) : list (text * text) :=
  let rows := map role_content (select_recent ch limit t) in
  rev rows.

(** The rows behind the result of [load_history_for_channel], in the order
    of the result. *)
Definition loaded_rows `{SqlEngine} (ch : Z) (limit : Z) (t : Table) : list Row :=
  rev (select_recent ch limit t).

(** An engine: insertion sort, which keeps rows of equal age in rowid
    order, as the sorter of SQLite does. *)
Fixpoint insert_desc (r : Row) (l : list Row) : list Row :=
  match l with
  | [] => [r]
  | x :: l' =>
      if created_at x <=? created_at r then r :: l
      else x :: insert_desc r l'
  end.

Definition sort_desc (l : list Row) : list Row :=
  fold_right insert_desc [] l.

End History.

(** ** The platform, the services and the world *)

Module Platform.

Local Open Scope Z_scope.

Inductive outcome (A : Type) : Type :=
| Ok (a : A)
| Raise (e : text).
Arguments Ok {A} a.
Arguments Raise {A} e.

Record Member := {
  member_id : Z;
  display_name : text;
  mention : text
}.

(** A [discord.Message].  [reference_author] is the id of the author of
    [message.reference.resolved] when the message is a reply whose target
    was resolved to a message, and [None] otherwise. *)
Record Message := {
  message_id : Z;
  author_id : Z;
  author_bot : bool;
  message_content : text;
  message_channel : Z;
  reference_author : option Z
}.

(** A [discord.Interaction]: the invoking user with the permissions the
    handlers read, and the channel it came from. *)
Record Interaction := {
  user_id : Z;
  kick_members : bool;
  ban_members : bool;
  moderate_members : bool;
  interaction_channel : Z
}.

(** What the bot does to the outside, in the order it does it. *)
Inductive Event :=
| EvProcessCommands (m : Z)
| EvRespond (msg : text) (ephemeral : bool)
| EvChannelSend (ch : Z) (msg : text)
| EvReply (to : Z) (msg : text)
| EvSleep (seconds : Z)
| EvKick (member : Z) (reason : option text)
| EvTimeout (member : Z) (until : option Z) (reason : option text)
| EvModeration (input : text)
| EvChatCompletion (messages : list (text * text))
| EvFetchMessage (ch : Z) (id : Z)
| EvGetChannel (ch : Z)
| EvFetchChannel (ch : Z)
| EvChannelHistory (ch : Z) (limit : Z).

(** Configuration and collaborators.  Every oracle receives the events so
    far. *)
Record Env := {
  (** [OPENAI_API_KEY and openai] *)
  OPENAI_enabled : bool;
  BOT_OWNER_ID : Z;
  (** [bot.user.id] *)
  bot_user_id : Z;
  (** [openai.Moderation.create(input=text)["results"][0]["flagged"]] *)
  moderation_create : list Event -> text -> outcome bool;
  (** [openai.ChatCompletion.create(...)["choices"][0]["message"]["content"]] *)
  chat_completion_create : list Event -> list (text * text) -> outcome text;
  (** [CURRENT_TIMESTAMP] at an insert into the given table *)
  current_timestamp : list Event -> History.Table -> Z;
  (** [datetime.utcnow()], in seconds *)
  utcnow : list Event -> Z;
  member_kick : list Event -> Member -> option text -> outcome unit;
  member_timeout : list Event -> Member -> option Z -> option text -> outcome unit;
  (** [channel.fetch_message(id)] *)
  channel_fetch_message : list Event -> Z -> Z -> outcome Message;
  (** [interaction.guild.get_channel(id)]; raises when there is no guild *)
  guild_get_channel : list Event -> Z -> outcome (option Z);
  (** [interaction.client.fetch_channel(id)] *)
  client_fetch_channel : list Event -> Z -> outcome Z;
  (** [channel.history(limit=..)], newest first *)
  channel_history : list Event -> Z -> Z -> outcome (list Message)
}.

Record World := {
  table : History.Table;
  events : list Event
}.

(** The handlers' monad: state passing over [World]. *)
Definition M (A : Type) : Type := World -> A * World.

Definition ret {A} (a : A) : M A := fun w => (a, w).

Definition bind {A B} (m : M A) (k : A -> M B) : M B :=
  fun w => let (a, w') := m w in k a w'.

Definition emit (e : Event) : M unit :=
  fun w => (tt, {| table := table w; events := events w ++ [e] |}).

(** An external call: the oracle answers from the events before the call,
    and the call is recorded. *)
Definition call {A} (e : Event) (oracle : list Event -> A) : M A :=
  fun w => (oracle (events w), {| table := table w; events := events w ++ [e] |}).

(** The world after further events. *)
Definition extend (w : World) (evs : list Event) : World :=
  {| table := table w; events := events w ++ evs |}.

(** A request to one of the two services, as opposed to anything sent to
    the platform. *)
Definition service_call (e : Event) : Prop :=
  match e with
  | EvModeration _ | EvChatCompletion _ => True
  | _ => False
  end.

End Platform.

Export Platform.

Notation "x <- m ;; k" := (bind m (fun x => k))
  (at level 61, m at next level, right associativity).
Notation "m ;;; k" := (bind m (fun _ => k))
  (at level 61, right associativity).

(** ** The bot *)

Module Bot.

Local Open Scope Z_scope.

(** *** The local denylist *)

Definition PROFANITY : list text := [lit "badword1"; lit "badword2"].

Definition is_word_opt (c : option ascii) : bool :=
  match c with
  | Some c => is_word c
  | None => false
  end.

(** The regex assertion [\b] between the character before a position
    ([None] at the start of the string) and the one after it ([None] at
    the end): exactly one of them is a word character. *)
Definition word_boundary (prev next : option ascii) : bool :=
  xorb (is_word_opt prev) (is_word_opt next).

(** The last character of [w], or [prev] when [w] is empty. *)
Definition last_char (prev : option ascii) (w : text) : option ascii :=
  last (map Some w) prev.

(** [\b w \b] matches at the head of [l], [prev] being the character
    before it. *)
Definition match_at (w : text) (prev : option ascii) (l : text) : bool :=
  word_boundary prev (head l) &&
  match strip_prefix w l with
  | Some rest => word_boundary (last_char prev w) (head rest)
  | None => false
  end.

(** [re.search(rf"\b{re.escape(w)}\b", l)] finds a match: some position
    of [l], the end included, matches. *)
Fixpoint search_word (w : text) (prev : option ascii) (l : text) : bool :=
  match_at w prev l ||
  match l with
  | [] => false
  | c :: l' => search_word w (Some c) l'
  end.

Definition contains_profanity (t : text) : bool :=
  let text_l := str_lower t in
  existsb (fun w => search_word w None text_l) PROFANITY.

(** [t] holds a denylisted term as a whole word, whatever the case of its
    letters: the term sits between [pre] and [post], and no word character
    touches it. *)
Definition holds_denylisted_word (t : text) : Prop :=
  exists w pre mid post,
    In w PROFANITY /\ t = pre ++ mid ++ post /\ str_lower mid = str_lower w /\
    is_word_opt (last_char None pre) = false /\
    is_word_opt (head post) = false.

(** A neighbour of a term that leaves it a whole word whatever the
    Unicode tables say: no character at all, or an ASCII character that is
    not a word character. *)
Definition ascii_delimiter (c : option ascii) : bool :=
  match c with
  | Some c => is_ascii c && negb (is_word c)
  | None => true
  end.

(** [t] holds a denylisted term, whatever the case of its letters, between
    two such neighbours.  The rest of [t] is any text, ASCII or not. *)
Definition holds_delimited_denylisted_word (t : text) : Prop :=
  exists w pre mid post,
    In w PROFANITY /\ t = pre ++ mid ++ post /\ str_lower mid = str_lower w /\
    ascii_delimiter (last_char None pre) = true /\
    ascii_delimiter (head post) = true.

(** *** Message links *)

Fixpoint take_digits (l : text) : text * text :=
  match l with
  | [] => ([], [])
  | c :: l' =>
      if isdigit c then let (d, r) := take_digits l' in (c :: d, r)
      else ([], l)
  end.

(** [(\d+)] at the head of [l]: the longest run of digits, not empty. *)
Definition digits_then (l : text) : option (text * text) :=
  let (d, r) := take_digits l in
  match d with
  | [] => None
  | _ => Some (d, r)
  end.

(** [channels/(\d+)/(\d+)/(\d+)] matches at the head of [l]; the three
    groups.  A group is followed by a slash or ends the match, so taking
    the longest run of digits loses no match. *)
Definition match_link_at (l : text) : option (text * text * text) :=
  match strip_prefix (lit "channels/") l with
  | Some r1 =>
      match digits_then r1 with
      | Some (g1, "/"%char :: r2) =>
          match digits_then r2 with
          | Some (g2, "/"%char :: r3) =>
              match digits_then r3 with
              | Some (g3, _) => Some (g1, g2, g3)
              | None => None
              end
          | _ => None
          end
      | _ => None
      end
  | None => None
  end.

(** [re.search(r"channels/(\d+)/(\d+)/(\d+)", l)]: the leftmost match. *)
Fixpoint search_link (l : text) : option (text * text * text) :=
  match match_link_at l with
  | Some g => Some g
  | None =>
      match l with
      | [] => None
      | _ :: l' => search_link l'
      end
  end.

(** The regex assertion [$] at the head of [l]: the string ends here, or
    a single line feed ends it. *)
Definition at_end (l : text) : bool :=
  match l with
  | [] => true
  | [c] => ascii_eqb c "010"
  | _ => false
  end.

(** [/channels/\d+/(\d+)/(\d+)$] matches at the head of [l]; its first
    group.  The last run of digits must reach the end, so taking the
    longest runs loses no match. *)
Definition match_link_tail_at (l : text) : option text :=
  match strip_prefix (lit "/channels/") l with
  | Some r1 =>
      match digits_then r1 with
      | Some (_, "/"%char :: r2) =>
          match digits_then r2 with
          | Some (g1, "/"%char :: r3) =>
              match digits_then r3 with
              | Some (_, rest) => if at_end rest then Some g1 else None
              | None => None
              end
          | _ => None
          end
      | _ => None
      end
  | None => None
  end.

(** [re.search(r"/channels/\d+/(\d+)/(\d+)$", l)]: the first group of the
    leftmost match. *)
Fixpoint search_link_tail (l : text) : option text :=
  match match_link_tail_at l with
  | Some g => Some g
  | None =>
      match l with
      | [] => None
      | _ :: l' => search_link_tail l'
      end
  end.

(** The [if m:] block of [fetch_message_from_identifier]: both integers are
    read from the first group and nothing uses them, but [int] may raise;
    [None] is the raise. *)
Definition parse_link_tail (identifier : text) : option unit :=
  match search_link_tail identifier with
  | Some g1 =>
      match py_int g1 with
      | Some guild_id =>
          match py_int g1 with
          | Some channel_id => Some tt
          | None => None
          end
      | None => None
      end
  | None => Some tt
  end.

(** *** Fixed strings *)

Definition nl : ascii := "010"%char.

Definition refusal_input : text := lit "Sorry — I can't respond to that content.".
Definition refusal_output : text := lit "Sorry — I can't share that content.".
Definition apology : text :=
  lit "Sorry — I'm having trouble accessing the AI service right now. Please try again later.".
Definition system_prompt : text :=
  lit "You are a friendly, helpful assistant. Always be polite and avoid profanity.".
Definition echo_reply (user_text : text) : text :=
  lit "You said: " ++ user_text ++ [nl; nl] ++
  lit "(You can enable smarter replies by adding OPENAI_API_KEY to your .env.)".
Definition no_permission_kick : text := lit "You don't have permission to kick members.".
Definition no_permission_timeout : text := lit "You don't have permission to timeout members.".
Definition range_error : text := lit "Minutes must be between 0 and 40320.".

Definition make_chatgpt_confirmation
    (action target : text) (reason : option text) : text :=
  let r := py_or reason (lit "no reason provided") in
  lit "Sure! I’ll " ++ action ++ lit " " ++ target ++
  lit " immediately for **" ++ r ++ lit "**.".

(** The two reports of a timeout of 0 minutes. *)
Definition timeout_removed_report (member : Member) (reason : option text) : text :=
  mention member ++ lit " timeout removed. Reason: " ++
  py_or reason (lit "No reason provided.").

Definition timeout_failed_report (member : Member) (e : text) : text :=
  lit "Failed to timeout " ++ display_name member ++ lit ": " ++ e.

(** The permission check of [cmd_timeout] passes. *)
Definition may_timeout (env : Env) (i : Interaction) : Prop :=
  moderate_members i = true \/ user_id i = BOT_OWNER_ID env.

Section Handlers.

Context (env : Env) {engine : History.SqlEngine}.

(** *** The content gate *)

Definition is_content_safe (t : text) : M bool :=
  if contains_profanity t then ret false
  else if OPENAI_enabled env then
    resp <- call (EvModeration t) (fun evs => moderation_create env evs t) ;;
    match resp with
    | Ok true => ret false
    | Ok false => ret true
    | Raise _ => ret true
    end
  else ret true.

(** *** History, on the world's table *)

Definition save_message_to_history (ch : Z) (r c : text) : M unit :=
  fun w =>
    let now := current_timestamp env (events w) (table w) in
    (tt, {| table := History.save_message_to_history now ch r c (table w);
            events := events w |}).

Definition load_history_for_channel (ch : Z) (limit : Z) : M (list (text * text)) :=
  fun w => (History.load_history_for_channel ch limit (table w), w).

(** *** [fetch_message_from_identifier] *)

Definition first_non_bot (ms : list Message) : option Message :=
  find (fun m => negb (author_bot m)) ms.

(** The last resort: the newest of the last ten messages of the channel
    that no bot wrote.  The [before] bound of the request is left to the
    oracle. *)
Definition last_resort (i : Interaction) : M (option Message) :=
  let ch := interaction_channel i in
  r <- call (EvChannelHistory ch 10) (fun evs => channel_history env evs ch 10) ;;
  match r with
  | Ok ms => ret (first_non_bot ms)
  | Raise _ => ret None
  end.

(** The link path once both numbers are read: the channel from the guild
    cache or by a lookup, then the message in it.  Whatever raises leads to
    the last resort. *)
Definition fetch_linked (i : Interaction) (ch_id msg_id : Z) : M (option Message) :=
  cached <- call (EvGetChannel ch_id) (fun evs => guild_get_channel env evs ch_id) ;;
  match cached with
  | Raise _ => last_resort i
  | Ok cached =>
      channel <- match cached with
                 | Some c => ret (Ok c)
                 | None => call (EvFetchChannel ch_id)
                             (fun evs => client_fetch_channel env evs ch_id)
                 end ;;
      match channel with
      | Raise _ => last_resort i
      | Ok channel =>
          m <- call (EvFetchMessage channel msg_id)
                 (fun evs => channel_fetch_message env evs channel msg_id) ;;
          match m with
          | Ok msg => ret (Some msg)
          | Raise _ => last_resort i
          end
      end
  end.

(** The link path.  [int] of a group of more than 4300 digits raises, which
    the outer [except] turns into the last resort as well. *)
Definition resolve_by_link (i : Interaction) (identifier : text) : M (option Message) :=
  match search_link identifier with
  | Some (_, g2, g3) =>
      match py_int g2 with
      | Some ch_id =>
          match py_int g3 with
          | Some msg_id => fetch_linked i ch_id msg_id
          | None => last_resort i
          end
      | None => last_resort i
      end
  | None => last_resort i
  end.

(** [fetch_message_from_identifier].  An identifier that is [None] or
    empty goes to the last resort.  Inside the outer [try], a raise of
    [int] in the [if m:] block goes there too; a raise of [int] or of
    [fetch_message] on the numeric path is swallowed by the inner [except]
    and the link path is tried. *)
Definition fetch_message_from_identifier
    (i : Interaction) (identifier : option text) : M (option Message) :=
  match identifier with
  | Some (c :: r) =>
      let identifier := c :: r in
      match parse_link_tail identifier with
      | Some _ =>
          if str_isdigit identifier then
            match py_int identifier with
            | Some id =>
                let ch := interaction_channel i in
                m <- call (EvFetchMessage ch id)
                       (fun evs => channel_fetch_message env evs ch id) ;;
                match m with
                | Ok msg => ret (Some msg)
                | Raise _ => resolve_by_link i identifier
                end
            | None => resolve_by_link i identifier
            end
          else resolve_by_link i identifier
      | None => last_resort i
      end
  | _ => last_resort i
  end.

(** *** Moderation commands *)

Definition cmd_kick (i : Interaction) (member : Member) (reason : option text) : M unit :=
  if negb (kick_members i) && negb (user_id i =? BOT_OWNER_ID env) then
    emit (EvRespond no_permission_kick true)
  else
    let confirm := make_chatgpt_confirmation (lit "kick") (display_name member) reason in
    emit (EvRespond confirm false) ;;;
    emit (EvSleep 1) ;;;
    r <- call (EvKick (member_id member) reason)
           (fun evs => member_kick env evs member reason) ;;
    match r with
    | Ok _ =>
        emit (EvChannelSend (interaction_channel i)
                (mention member ++ lit " has been kicked. Reason: " ++
                 py_or reason (lit "No reason provided.")))
    | Raise e =>
        emit (EvChannelSend (interaction_channel i)
                (lit "Failed to kick " ++ display_name member ++ lit ": " ++ e))
    end.

Definition cmd_timeout
    (i : Interaction) (member : Member) (minutes : Z) (reason : option text) : M unit :=
  if negb (moderate_members i) && negb (user_id i =? BOT_OWNER_ID env) then
    emit (EvRespond no_permission_timeout true)
  else if (minutes <? 0) || (minutes >? 40320) then
    emit (EvRespond range_error true)
  else
    let confirm :=
      make_chatgpt_confirmation
        (lit "timeout for " ++ str_of_Z minutes ++ lit " minutes")
        (display_name member) reason in
    emit (EvRespond confirm false) ;;;
    emit (EvSleep 1) ;;;
    if minutes =? 0 then
      r <- call (EvTimeout (member_id member) None reason)
             (fun evs => member_timeout env evs member None reason) ;;
      match r with
      | Ok _ =>
          emit (EvChannelSend (interaction_channel i)
                  (mention member ++ lit " timeout removed. Reason: " ++
                   py_or reason (lit "No reason provided.")))
      | Raise e =>
          emit (EvChannelSend (interaction_channel i)
                  (lit "Failed to timeout " ++ display_name member ++ lit ": " ++ e))
      end
    else
      now <- (fun w => (utcnow env (events w), w)) ;;
      let until := now + 60 * minutes in
      r <- call (EvTimeout (member_id member) (Some until) reason)
             (fun evs => member_timeout env evs member (Some until) reason) ;;
      match r with
      | Ok _ =>
          emit (EvChannelSend (interaction_channel i)
                  (mention member ++ lit " has been timed out for " ++
                   str_of_Z minutes ++ lit " minutes. Reason: " ++
                   py_or reason (lit "No reason provided.")))
      | Raise e =>
          emit (EvChannelSend (interaction_channel i)
                  (lit "Failed to timeout " ++ display_name member ++ lit ": " ++ e))
      end.

(** *** The chat turn *)

(** The [messages] list of the completion request. *)
Definition chat_prompt (history : list (text * text)) (user_text : text)
  : list (text * text) :=
  [(lit "system", system_prompt)] ++ history ++ [(lit "user", user_text)].

(** The reply before the output gate. *)
Definition draft_reply (history : list (text * text)) (user_text : text) : M text :=
  if OPENAI_enabled env then
    let messages := chat_prompt history user_text in
    resp <- call (EvChatCompletion messages)
              (fun evs => chat_completion_create env evs messages) ;;
    match resp with
    | Ok c => ret (strip c)
    | Raise _ => ret apology
    end
  else ret (echo_reply user_text).

Definition on_message (message : Message) : M unit :=
  emit (EvProcessCommands (message_id message)) ;;;
  if author_bot message then ret tt
  else
    match reference_author message with
    | Some ref_author =>
        if ref_author =? bot_user_id env then
          let user_text := message_content message in
          safe <- is_content_safe user_text ;;
          if negb safe then
            emit (EvChannelSend (message_channel message) refusal_input)
          else
            save_message_to_history (message_channel message) (lit "user") user_text ;;;
            history <- load_history_for_channel (message_channel message) 10 ;;
            reply_text <- draft_reply history user_text ;;
            safe_out <- is_content_safe reply_text ;;
            let reply_text := if negb safe_out then refusal_output else reply_text in
            save_message_to_history (message_channel message) (lit "assistant") reply_text ;;;
            emit (EvReply (message_id message) reply_text)
        else ret tt
    | None => ret tt
    end.

End Handlers.

End Bot.

(** ** The other commands: edit, ban and the advertisements

    These handlers respond through the interaction's follow-up and, for the
    ban, ask the platform for something the handlers above never ask.  They
    run over a [Session]: the world of the handlers above together with the
    full record of what the command did, in which an event of the handlers
    above appears as [Did]. *)

Module Commands.

Local Open Scope Z_scope.

Inductive Color := Blurple | Green.

(** A [discord.Embed] with what the advertisements set. *)
Record Embed := {
  title : text;
  description : text;
  url : text;
  color : Color;
  thumbnail : option text;
  fields : list (text * text);
  footer : text
}.

Inductive Action :=
| Defer (thinking : bool)
| Followup (msg : text)
| FollowupEmbed (e : Embed)
| Ban (member : Z) (reason : option text)
| Did (e : Event).

(** The environment of the handlers above, the optional grammar engine
    ([language_tool_python], see [Repair.run_language_tool_check]) and the
    platform's ban. *)
Record Setup := {
  base_env : Env;
  language_tool : option (text -> option text);
  member_ban : list Action -> Member -> option text -> outcome unit
}.

(** The interaction with the display name of its user. *)
Record Invocation := {
  interaction : Interaction;
  user_display_name : text
}.

Record Session := {
  world : World;
  log : list Action
}.

Definition C (A : Type) : Type := Session -> A * Session.

Definition cret {A} (a : A) : C A := fun s => (a, s).

Definition cbind {A B} (m : C A) (k : A -> C B) : C B :=
  fun s => let (a, s') := m s in k a s'.

Definition act (a : Action) : C unit :=
  fun s => (tt, {| world := world s; log := log s ++ [a] |}).

(** A handler of the world run inside a command: the events it adds to the
    world are added to the record. *)
Definition lift {A} (m : M A) : C A :=
  fun s =>
    let (a, w') := m (world s) in
    let added := skipn (length (events (world s))) (events w') in
    (a, {| world := w'; log := log s ++ map Did added |}).

Definition ask_ban (setup : Setup) (member : Member) (reason : option text)
  : C (outcome unit) :=
  fun s => (member_ban setup (log s) member reason,
            {| world := world s; log := log s ++ [Ban (member_id member) reason] |}).

Notation "x <~ m ;; k" := (cbind m (fun x => k))
  (at level 61, m at next level, right associativity).
Notation "m ;;;; k" := (cbind m (fun _ => k))
  (at level 61, right associativity).

(** *** Fixed strings *)

Definition wont_edit : text := lit "I won't edit bot messages.".
Definition unsafe_message : text :=
  lit "The message contains disallowed content and cannot be edited.".
Definition unsafe_target : text :=
  lit "The target message contains disallowed content and cannot be edited.".
Definition will_edit : text :=
  lit "Sure! I'll edit that message for typos and grammar and post the improved version below.".
Definition will_rewrite : text :=
  lit "I'll rewrite the article for clarity, flow, and grammar and post it below.".
Definition not_found_edit : text :=
  lit "Couldn't find the target message. You can use the message context menu (right-click message -> Apps -> Edit message (AI)) or provide a message link/ID.".
Definition not_found_article : text :=
  lit "Couldn't find the target message. Use the message context menu or provide a message link/ID.".
Definition no_permission_ban : text := lit "You don't have permission to ban members.".

Definition edited_post (name repaired : text) : text :=
  lit "**Edited (by " ++ name ++ lit "):**" ++ [Bot.nl] ++ repaired.

Definition article_post (name repaired : text) : text :=
  lit "**Article rewrite (by " ++ name ++ lit "):**" ++ [Bot.nl] ++ repaired.

Section Handlers.

Context (setup : Setup).

Definition channel_send (inv : Invocation) (msg : text) : C unit :=
  lift (emit (EvChannelSend (interaction_channel (interaction inv)) msg)).

(** *** The edit commands *)

Definition context_edit (inv : Invocation) (message : Message) : C unit :=
  act (Defer true) ;;;;
  if author_bot message then act (Followup wont_edit)
  else
    safe <~ lift (Bot.is_content_safe (base_env setup) (message_content message)) ;;
    if negb safe then act (Followup unsafe_message)
    else
      let repaired :=
        Repair.run_language_tool_check (language_tool setup)
          (message_content message) false in
      act (Followup will_edit) ;;;;
      channel_send inv (edited_post (user_display_name inv) repaired).

Definition slash_edit (inv : Invocation) (message_identifier : option text) : C unit :=
  act (Defer true) ;;;;
  msg <~ lift (Bot.fetch_message_from_identifier (base_env setup)
                 (interaction inv) message_identifier) ;;
  match msg with
  | None => act (Followup not_found_edit)
  | Some msg =>
      if author_bot msg then act (Followup wont_edit)
      else
        safe <~ lift (Bot.is_content_safe (base_env setup) (message_content msg)) ;;
        if negb safe then act (Followup unsafe_target)
        else
          let repaired :=
            Repair.run_language_tool_check (language_tool setup)
              (message_content msg) false in
          act (Followup will_edit) ;;;;
          channel_send inv (edited_post (user_display_name inv) repaired)
  end.

Definition context_edit_article (inv : Invocation) (message : Message) : C unit :=
  act (Defer true) ;;;;
  if author_bot message then act (Followup wont_edit)
  else
    safe <~ lift (Bot.is_content_safe (base_env setup) (message_content message)) ;;
    if negb safe then act (Followup unsafe_message)
    else
      let repaired :=
        Repair.run_language_tool_check (language_tool setup)
          (message_content message) true in
      act (Followup will_rewrite) ;;;;
      channel_send inv (article_post (user_display_name inv) repaired).

Definition slash_edit_article (inv : Invocation) (message_identifier : option text)
  : C unit :=
  act (Defer true) ;;;;
  msg <~ lift (Bot.fetch_message_from_identifier (base_env setup)
                 (interaction inv) message_identifier) ;;
  match msg with
  | None => act (Followup not_found_article)
  | Some msg =>
      if author_bot msg then act (Followup wont_edit)
      else
        safe <~ lift (Bot.is_content_safe (base_env setup) (message_content msg)) ;;
        if negb safe then act (Followup unsafe_target)
        else
          let repaired :=
            Repair.run_language_tool_check (language_tool setup)
              (message_content msg) true in
          act (Followup will_rewrite) ;;;;
          channel_send inv (article_post (user_display_name inv) repaired)
  end.

(** *** The advertisements *)

Definition book_url : text := lit "https://a.co/d/7cKhbC7".
Definition company_url : text := lit "https://logoscompany.store".

Definition advertise_book (inv : Invocation) : C unit :=
  act (Defer false) ;;;;
  let embed := {|
    title := lit "Recommended Read";
    description := lit "Check out this book — a great pick for readers!";
    url := book_url;
    color := Blurple;
    thumbnail := Some (lit "https://m.media-amazon.com/images/I/51-example.jpg");
    fields := [(lit "Buy it here", book_url)];
    footer := lit "Promoted"
  |} in
  act (FollowupEmbed embed).

Definition advertise_logos (inv : Invocation) : C unit :=
  act (Defer false) ;;;;
  let embed := {|
    title := lit "LogosCompany — Custom Logos & Branding";
    description := lit "Professional logo design and branding at LogosCompany. Visit their shop for templates and custom design.";
    url := company_url;
    color := Green;
    thumbnail := None;
    fields := [(lit "Shop", company_url)];
    footer := lit "Promoted"
  |} in
  act (FollowupEmbed embed).

(** *** The ban *)

Definition cmd_ban (inv : Invocation) (member : Member) (reason : option text) : C unit :=
  let i := interaction inv in
  if negb (ban_members i) && negb (user_id i =? BOT_OWNER_ID (base_env setup)) then
    lift (emit (EvRespond no_permission_ban true))
  else
    let confirm := Bot.make_chatgpt_confirmation (lit "ban") (display_name member) reason in
    lift (emit (EvRespond confirm false)) ;;;;
    lift (emit (EvSleep 1)) ;;;;
    r <~ ask_ban setup member reason ;;
    match r with
    | Ok _ =>
        channel_send inv
          (mention member ++ lit " has been banned. Reason: " ++
           py_or reason (lit "No reason provided."))
    | Raise e =>
        channel_send inv
          (lit "Failed to ban " ++ display_name member ++ lit ": " ++ e)
    end.

End Handlers.

(** The two context-menu commands and the two slash commands, by whether
    they are the article ones. *)
Definition context_command (setup : Setup) (article : bool) :=
  if article then context_edit_article setup else context_edit setup.

Definition slash_command (setup : Setup) (article : bool) :=
  if article then slash_edit_article setup else slash_edit setup.

Definition unsafe_reply (slash : bool) : text :=
  if slash then unsafe_target else unsafe_message.

Definition not_found (article : bool) : text :=
  if article then not_found_article else not_found_edit.

Definition acknowledgement (article : bool) : text :=
  if article then will_rewrite else will_edit.

Definition post (article : bool) (name repaired : text) : text :=
  if article then article_post name repaired else edited_post name repaired.

(** The permission check of [cmd_ban] passes. *)
Definition may_ban (setup : Setup) (inv : Invocation) : Prop :=
  ban_members (interaction inv) = true \/
  user_id (interaction inv) = BOT_OWNER_ID (base_env setup).

(** Something was sent to a channel. *)
Definition is_post (a : Action) : bool :=
  match a with
  | Did (EvChannelSend _ _) | Did (EvReply _ _) => true
  | _ => false
  end.

(** A text follow-up to the interaction. *)
Definition is_followup (a : Action) : bool :=
  match a with
  | Followup _ => true
  | _ => false
  end.

End Commands.


(** ** Notions for further properties *)

Module Notions.

(** The characters of a text that are not whitespace, in order. *)
Definition visible (l : text) : text := filter (fun c => negb (isspace c)) l.

(** The moderation service answered, and answered "flagged". *)
Definition flagged (r : outcome bool) : bool :=
  match r with
  | Ok true => true
  | _ => false
  end.

(** A request for a message, a channel or a channel's recent messages. *)
Definition lookup (e : Event) : Prop :=
  match e with
  | EvFetchMessage _ _ | EvGetChannel _ | EvFetchChannel _
  | EvChannelHistory _ _ => True
  | _ => False
  end.

(** The message is not a user's reply to this bot. *)
Definition not_for_bot (env : Env) (message : Message) : bool :=
  author_bot message ||
  match reference_author message with
  | Some a => negb (a =? bot_user_id env)%Z
  | None => true
  end.

(** No identifier was given: none at all, or the empty string. *)
Definition absent (identifier : option text) : Prop :=
  identifier = None \/ identifier = Some [].

(** The permission check of [cmd_kick] passes. *)
Definition may_kick (env : Env) (i : Interaction) : Prop :=
  kick_members i = true \/ user_id i = BOT_OWNER_ID env.

(** A message link as the platform writes it. *)
Definition message_link (guild channel message : text) : text :=
  lit "https://discord.com/channels/" ++ guild ++ "/"%char :: channel
    ++ "/"%char :: message.

End Notions.


(** ** Sample configurations and inputs *)

Module Samples.

Local Open Scope Z_scope.

(** An environment from the parts that vary; the platform lookups find
    nothing and the clock stands still. *)
Definition make_env
    (openai : bool)
    (moderation : text -> outcome bool)
    (completion : list (text * text) -> outcome text)
    (timeout : outcome unit) : Env := {|
  OPENAI_enabled := openai;
  BOT_OWNER_ID := 0;
  bot_user_id := 42;
  moderation_create := fun _ t => moderation t;
  chat_completion_create := fun _ ms => completion ms;
  current_timestamp := fun _ _ => 1700000000;
  utcnow := fun _ => 1700000000;
  member_kick := fun _ _ _ => Ok tt;
  member_timeout := fun _ _ _ _ => timeout;
  channel_fetch_message := fun _ _ _ => Raise (lit "Unknown Message");
  guild_get_channel := fun _ _ => Ok None;
  client_fetch_channel := fun _ _ => Raise (lit "Unknown Channel");
  channel_history := fun _ _ _ => Ok []
|}.

(** No API key: no moderation and no completion service. *)
Definition env_offline : Env :=
  make_env false (fun _ => Ok false) (fun _ => Raise (lit "unused")) (Ok tt).

(** Key configured, both services down. *)
Definition env_outage : Env :=
  make_env true (fun _ => Raise (lit "timeout"))
    (fun _ => Raise (lit "timeout")) (Ok tt).

(** Key configured, completion down, and a moderation service that flags
    the apology and nothing else. *)
Definition env_strict : Env :=
  make_env true (fun t => Ok (text_eqb t Bot.apology))
    (fun _ => Raise (lit "timeout")) (Ok tt).

(** The platform refuses to change timeouts. *)
Definition env_forbidden : Env :=
  make_env false (fun _ => Ok false) (fun _ => Raise (lit "unused"))
    (Raise (lit "403 Forbidden")).

(** Key configured, and a completion service that answers with a denylisted
    word. *)
Definition env_rude : Env :=
  make_env true (fun _ => Ok false)
    (fun _ => Ok (lit " you badword2 ")) (Ok tt).

(** [env] with a platform that finds messages, caches channels and lists a
    channel's recent messages as given. *)
Definition with_platform (env : Env)
    (fetch : Z -> Z -> outcome Message) (cache : Z -> option Z)
    (recent : outcome (list Message)) : Env := {|
  OPENAI_enabled := OPENAI_enabled env;
  BOT_OWNER_ID := BOT_OWNER_ID env;
  bot_user_id := bot_user_id env;
  moderation_create := moderation_create env;
  chat_completion_create := chat_completion_create env;
  current_timestamp := current_timestamp env;
  utcnow := utcnow env;
  member_kick := member_kick env;
  member_timeout := member_timeout env;
  channel_fetch_message := fun _ ch id => fetch ch id;
  guild_get_channel := fun _ ch => Ok (cache ch);
  client_fetch_channel := client_fetch_channel env;
  channel_history := fun _ _ _ => recent
|}.

Definition world0 : World := {| table := []; events := [] |}.

(** A grammar engine that is installed and raises. *)
Definition broken_tool : option (text -> option text) :=
  Some (fun _ => None).

Definition untidy : text := lit "  hello   World .  how ARE you ?  ".
Definition tidy : text := lit "hello there. how are You?".

(** A space, a tab and a line feed. *)
Definition blank : text := [" "%char; "009"%char; "010"%char].

(** A user's reply to a message of the bot, and the same sent by a bot. *)
Definition human_reply : Message := {|
  message_id := 1001;
  author_id := 7;
  author_bot := false;
  message_content := lit "hello";
  message_channel := 5;
  reference_author := Some 42
|}.

(** A user's reply to the bot that holds a denylisted word. *)
Definition rude_reply : Message := {|
  message_id := 1003;
  author_id := 7;
  author_bot := false;
  message_content := lit "Badword1!";
  message_channel := 5;
  reference_author := Some 42
|}.

(** Two messages of a channel: the bot's last answer and, before it, a
    user's message. *)
Definition bot_answer : Message := {|
  message_id := 2002;
  author_id := 42;
  author_bot := true;
  message_content := lit "You said: helo wrld";
  message_channel := 5;
  reference_author := Some 7
|}.

Definition user_message : Message := {|
  message_id := 2001;
  author_id := 7;
  author_bot := false;
  message_content := lit "helo  wrld .it is me";
  message_channel := 5;
  reference_author := None
|}.

(** A platform on which channel 22 holds message 333. *)
Definition env_linked : Env :=
  with_platform (make_env false (fun _ => Ok false) (fun _ => Raise (lit "unused")) (Ok tt))
    (fun ch id => if (ch =? 22) && (id =? 333) then Ok user_message
                  else Raise (lit "Unknown Message"))
    (fun ch => if ch =? 22 then Some 22 else None)
    (Ok [bot_answer; user_message]).

(** A platform that finds a message under every id and has no recent
    messages. *)
Definition env_found : Env :=
  with_platform (make_env false (fun _ => Ok false) (fun _ => Raise (lit "unused")) (Ok tt))
    (fun _ _ => Ok user_message) (fun _ => None) (Ok []).

(** A message id of 4301 digits. *)
Definition overlong_id : text := repeat "1"%char 4301.

(** A platform whose recent messages are all the bot's. *)
Definition env_bots_only : Env :=
  with_platform (make_env false (fun _ => Ok false) (fun _ => Raise (lit "unused")) (Ok tt))
    (fun _ _ => Raise (lit "Unknown Message")) (fun _ => None)
    (Ok [bot_answer]).

Definition bot_reply : Message := {|
  message_id := 1002;
  author_id := 8;
  author_bot := true;
  message_content := lit "hello";
  message_channel := 5;
  reference_author := Some 42
|}.

Definition moderator : Interaction := {|
  user_id := 7;
  kick_members := true;
  ban_members := true;
  moderate_members := true;
  interaction_channel := 5
|}.

Definition guest : Interaction := {|
  user_id := 9;
  kick_members := false;
  ban_members := false;
  moderate_members := false;
  interaction_channel := 5
|}.

Definition bob : Member := {|
  member_id := 11;
  display_name := lit "Bob";
  mention := lit "<@11>"
|}.

Definition row (ch : Z) (r c : string) (at_ : Z) : History.Row := {|
  History.channel_id := ch;
  History.role := lit r;
  History.content := lit c;
  History.created_at := at_
|}.

(** A platform whose newest recent message holds a denylisted word. *)
Definition env_rude_target : Env :=
  with_platform (make_env false (fun _ => Ok false) (fun _ => Raise (lit "unused")) (Ok tt))
    (fun _ _ => Raise (lit "Unknown Message")) (fun _ => None)
    (Ok [rude_reply]).

(** No grammar engine installed; bans succeed. *)
Definition setup_on (env : Env) : Commands.Setup := {|
  Commands.base_env := env;
  Commands.language_tool := None;
  Commands.member_ban := fun _ _ _ => Ok tt
|}.

Definition ann : Commands.Invocation := {|
  Commands.interaction := moderator;
  Commands.user_display_name := lit "Ann"
|}.

Definition visitor : Commands.Invocation := {|
  Commands.interaction := guest;
  Commands.user_display_name := lit "Visitor"
|}.

Definition session0 : Commands.Session :=
  {| Commands.world := world0; Commands.log := [] |}.

(** The world after the request for an accepted greeting. *)
Definition asked_hello : World :=
  extend world0 [EvProcessCommands 1001; EvModeration (lit "hello")].

Definition table5 : History.Table :=
  [ row 5 "user" "one" 10; row 6 "user" "elsewhere" 11;
    row 5 "assistant" "two" 12; row 5 "user" "three" 15;
    row 5 "assistant" "four" 17 ].

End Samples.


(** * Properties *)

(** ** Characters *)

Module TextFacts.

Ltac by_cases_on c :=
  destruct c as [[] [] [] [] [] [] [] []]; vm_compute; try reflexivity; try congruence; auto.

Lemma lower_lower c : lower (lower c) = lower c.
Proof. by_cases_on c. Qed.

Lemma lower_upper c : lower (upper c) = lower c.
Proof. by_cases_on c. Qed.

Lemma upper_upper c : upper (upper c) = upper c.
Proof. by_cases_on c. Qed.

Lemma isspace_lower c : isspace (lower c) = isspace c.
Proof. by_cases_on c. Qed.

Lemma isspace_upper c : isspace (upper c) = isspace c.
Proof. by_cases_on c. Qed.

Lemma is_word_lower c : is_word (lower c) = is_word c.
Proof. by_cases_on c. Qed.

Lemma space_uncased c : isspace c = true -> lower c = c /\ upper c = c.
Proof. by_cases_on c. Qed.

Lemma isdigit_not_slash c : isdigit c = true -> ascii_eqb "/" c = false.
Proof. by_cases_on c; intro H; try reflexivity; discriminate H. Qed.

Lemma isdigit_not_letter c : isdigit c = true -> ascii_eqb "c" c = false.
Proof. by_cases_on c. Qed.

Lemma ascii_eqb_eq a b : ascii_eqb a b = true <-> a = b.
Proof.
  unfold ascii_eqb, code. rewrite N.eqb_eq. split; [|congruence].
  intro H. rewrite <- (ascii_N_embedding a), <- (ascii_N_embedding b). congruence.
Qed.

Lemma ascii_eqb_refl a : ascii_eqb a a = true.
Proof. now apply ascii_eqb_eq. Qed.

Lemma strip_prefix_app w post : strip_prefix w (w ++ post) = Some post.
Proof. induction w as [|c w IH]; simpl; [reflexivity|]. now rewrite ascii_eqb_refl. Qed.

Lemma str_lower_app a b : str_lower (a ++ b) = str_lower a ++ str_lower b.
Proof. apply map_app. Qed.

End TextFacts.

(** ** The fallback transform *)

Module RepairFacts.

Import TextFacts Repair.

Lemma recased_classes c c' :
  recased c c' ->
  isspace c' = isspace c /\ is_punct c' = is_punct c /\
  is_term c' = is_term c /\ ascii_eqb c' " " = ascii_eqb c " ".
Proof.
  intros [-> | [-> | ->]]; [auto | by_cases_on c | by_cases_on c].
Qed.

Lemma term_uncased c : is_term c = true -> upper c = c /\ isspace c = false.
Proof. by_cases_on c. Qed.

(** *** The regular expressions on sample strings

    The expected values are those of Python's [re] and [str]. *)

Example re_split_trailing :
  map show (re_split (lit "a.  b.   ")) = ["a"; ".  "; "b"; ".   "; ""]%string.
Proof. reflexivity. Qed.

Example re_split_adjacent :
  map show (re_split (lit ". a. . b")) = [""; ". "; "a"; ". "; ""; ". "; "b"]%string.
Proof. reflexivity. Qed.

Example re_split_double_terminator :
  map show (re_split (lit "a.. b")) = ["a."; ". "; "b"]%string.
Proof. reflexivity. Qed.

Example sub_space_punct_runs :
  show (sub_space_punct ("a"%char :: " "%char :: "009"%char :: lit " . b ,  , c  d , "))
  = "a. b,, c  d, "%string.
Proof. reflexivity. Qed.

Example fallback_samples :
  map (fun s => show (fallback (lit s)))
    [ "Hello World"; " a"; "a. b"; "a.  b. "; "hi .  there !you"; "a. . b";
      ". a"; "a .b ,c"; "x.y. z"; ""; "   "; " . "; "a? B! c"; ". . a" ]%string
  = [ "Hello world"; "A"; "A. B"; "A. B."; "Hi. There!you"; "A.. B";
      ". A"; "A.b,c"; "X.y. Z"; ""; ""; "."; "A? B! C"; ".. A" ]%string.
Proof. reflexivity. Qed.

(** *** Line 1: whitespace runs *)

Lemma sub_ws_clean l : forall f, clean_ws f (sub_ws f l) = true.
Proof.
  induction l as [|c l IH]; intro f; simpl; [reflexivity|].
  destruct (isspace c) eqn:Ec.
  - destruct f; simpl; [apply IH | now rewrite IH].
  - simpl. now rewrite Ec.
Qed.

Lemma clean_ws_fix l : forall f, clean_ws f l = true -> sub_ws f l = l.
Proof.
  induction l as [|c l IH]; intros f H; simpl in *; [reflexivity|].
  destruct (isspace c).
  - apply andb_true_iff in H as [H Hl]. apply andb_true_iff in H as [Hf Hc].
    destruct f; [discriminate|]. apply ascii_eqb_eq in Hc. subst c.
    now rewrite (IH true Hl).
  - now rewrite (IH false H).
Qed.

Lemma clean_ws_weaken l f : clean_ws f l = true -> clean_ws false l = true.
Proof.
  destruct l as [|c l]; simpl; [auto|].
  destruct (isspace c); [|auto]. destruct f; simpl; [discriminate | auto].
Qed.

(** *** [strip] *)

Lemma lstrip_clean l : forall f, clean_ws f l = true -> clean_ws false (lstrip l) = true.
Proof.
  induction l as [|c l IH]; intros f H; simpl in *; [reflexivity|].
  destruct (isspace c) eqn:Ec.
  - apply andb_true_iff in H as [_ Hl]. eauto.
  - simpl. now rewrite Ec.
Qed.

Lemma lstrip_no_lead l : starts_with_space (lstrip l) = false.
Proof.
  induction l as [|c l IH]; simpl; [reflexivity|].
  destruct (isspace c) eqn:Ec; [assumption | simpl; assumption].
Qed.

Lemma lstrip_fix l : starts_with_space l = false -> lstrip l = l.
Proof. destruct l as [|c l]; simpl; [auto|]. now intros ->. Qed.

Lemma rstrip_clean l : forall f, clean_ws f l = true -> clean_ws f (rstrip l) = true.
Proof.
  induction l as [|c l IH]; intros f H; [reflexivity|].
  cbn [rstrip]. destruct (rstrip l) as [|x r] eqn:Er.
  - simpl in H. destruct (isspace c) eqn:Ec; [reflexivity|]. simpl. now rewrite Ec.
  - simpl in H |- *. destruct (isspace c) eqn:Ec.
    + apply andb_true_iff in H as [H Hl]. rewrite H. apply (IH true Hl).
    + apply (IH false H).
Qed.

Lemma rstrip_no_lead l : starts_with_space l = false -> starts_with_space (rstrip l) = false.
Proof.
  destruct l as [|c l]; [auto|]. cbn [rstrip starts_with_space]. intro Hc.
  destruct (rstrip l); [rewrite Hc|]; simpl; auto.
Qed.

Lemma rstrip_no_trail l : ends_with_space (rstrip l) = false.
Proof.
  induction l as [|c l IH]; [reflexivity|].
  cbn [rstrip]. destruct (rstrip l) as [|x r] eqn:Er.
  - destruct (isspace c) eqn:Ec; simpl; auto.
  - exact IH.
Qed.

Lemma rstrip_fix l : ends_with_space l = false -> rstrip l = l.
Proof.
  induction l as [|c l IH]; [reflexivity|].
  cbn [rstrip ends_with_space]. destruct l as [|x l'].
  - simpl. now intros ->.
  - intro H. now rewrite (IH H).
Qed.

(** *** Line 2: whitespace before punctuation *)

Lemma run_then_punct_space c l :
  isspace c = true -> run_then_punct (c :: l) = run_then_punct l.
Proof. intro Ec. unfold run_then_punct. simpl. now rewrite Ec. Qed.

Lemma run_then_punct_char c l :
  isspace c = false -> run_then_punct (c :: l) = is_punct c.
Proof. intro Ec. unfold run_then_punct. simpl. now rewrite Ec. Qed.

Lemma run_then_punct_sub l : run_then_punct (sub_space_punct l) = run_then_punct l.
Proof.
  induction l as [|c l IH]; [reflexivity|]. cbn [sub_space_punct].
  destruct (isspace c) eqn:Ec; simpl andb.
  - rewrite (run_then_punct_space _ _ Ec).
    destruct (run_then_punct l) eqn:Er; [assumption|].
    now rewrite (run_then_punct_space _ _ Ec).
  - now rewrite !(run_then_punct_char _ _ Ec).
Qed.

Lemma sub_space_punct_no_run l : no_run_punct (sub_space_punct l) = true.
Proof.
  induction l as [|c l IH]; [reflexivity|]. cbn [sub_space_punct].
  destruct (isspace c && run_then_punct l) eqn:E; [assumption|].
  cbn [no_run_punct]. now rewrite run_then_punct_sub, E, IH.
Qed.

Lemma sub_space_punct_fix l : no_run_punct l = true -> sub_space_punct l = l.
Proof.
  induction l as [|c l IH]; [reflexivity|]. cbn [sub_space_punct no_run_punct].
  intro H. apply andb_true_iff in H as [H Hl]. apply negb_true_iff in H.
  now rewrite H, (IH Hl).
Qed.

Lemma sub_space_punct_clean l : forall f, clean_ws f l = true -> clean_ws f (sub_space_punct l) = true.
Proof.
  induction l as [|c l IH]; intros f H; [reflexivity|]. cbn [sub_space_punct].
  simpl in H. destruct (isspace c) eqn:Ec; simpl andb.
  - apply andb_true_iff in H as [H Hl]. apply andb_true_iff in H as [Hf Hc].
    destruct f; [discriminate|].
    destruct (run_then_punct l).
    + apply clean_ws_weaken with (f := true). now apply IH.
    + simpl. rewrite Ec, Hc. simpl. now apply IH.
  - simpl. rewrite Ec. now apply IH.
Qed.

Lemma sub_space_punct_no_lead l :
  starts_with_space l = false -> starts_with_space (sub_space_punct l) = false.
Proof.
  destruct l as [|c l]; [auto|]. cbn [sub_space_punct starts_with_space].
  intro Ec. rewrite Ec. simpl. exact Ec.
Qed.

Lemma sub_space_punct_nil l : sub_space_punct l = [] -> l = [].
Proof.
  induction l as [|c l IH]; [auto|]. cbn [sub_space_punct].
  destruct (isspace c && run_then_punct l) eqn:E; [|discriminate].
  intro H. apply IH in H. subst l. apply andb_true_iff in E as [_ E]. discriminate.
Qed.

Lemma sub_space_punct_no_trail l :
  ends_with_space l = false -> ends_with_space (sub_space_punct l) = false.
Proof.
  induction l as [|c l IH]; [auto|]. destruct l as [|x l'].
  - simpl. intro Ec. rewrite Ec. simpl. exact Ec.
  - intro H. change (ends_with_space (x :: l') = false) in H.
    pose proof (IH H) as IH'. pose proof (sub_space_punct_nil (x :: l')) as Hn.
    remember (x :: l') as m eqn:Em. cbn [sub_space_punct].
    destruct (isspace c && run_then_punct m); [exact IH'|].
    cbn [ends_with_space]. destruct (sub_space_punct m); [|exact IH'].
    specialize (Hn eq_refl). subst m. discriminate.
Qed.

(** The first two lines produce a text in normal form, and leave such a text
    as it is. *)
Lemma normalize_normal t : normal (normalize t).
Proof.
  unfold normalize, strip. repeat split.
  - apply sub_space_punct_clean, rstrip_clean, lstrip_clean with (f := false), sub_ws_clean.
  - apply sub_space_punct_no_lead, rstrip_no_lead, lstrip_no_lead.
  - apply sub_space_punct_no_trail, rstrip_no_trail.
  - apply sub_space_punct_no_run.
Qed.

Lemma normal_fix s : normal s -> normalize s = s.
Proof.
  intros (Hc & Hl & Ht & Hp). unfold normalize, strip.
  now rewrite (clean_ws_fix _ _ Hc), (lstrip_fix _ Hl), (rstrip_fix _ Ht), (sub_space_punct_fix _ Hp).
Qed.

(** *** Line 3: split, capitalize, join *)

Lemma lower_space c : isspace c = true -> lower c = c.
Proof. intro H. now apply space_uncased. Qed.

Lemma upper_term c : is_term c = true -> upper c = c.
Proof. intro H. now apply term_uncased. Qed.

(** The three ways a run of [split_parts] continues a part, against the
    three states of [cap_go]. *)
Lemma split_parts_cap l :
  (forall p ps, split_parts false l = (p, ps) ->
     map lower p ++ concat (map capitalize ps) = cap_go InText l) /\
  (forall p ps, split_parts false l = (p, ps) ->
     capitalize p ++ concat (map capitalize ps) = cap_go AtStart l) /\
  (forall p ps, split_parts true l = (p, ps) ->
     map lower p ++ concat (map capitalize ps) = cap_go InSep l).
Proof.
  induction l as [|c l (IHt & IHs & IHp)].
  - repeat split; intros p ps H; inversion H; reflexivity.
  - repeat split; intros p ps H; cbn [split_parts cap_go in_sep_state in_text_state andb] in *.
    + destruct (is_term c && starts_with_space l) eqn:E.
      * destruct (split_parts true l) as [q qs] eqn:Eq. inversion H; subst.
        apply andb_true_iff in E as [Et _].
        simpl. rewrite (upper_term _ Et). f_equal. now apply IHp.
      * destruct (split_parts false l) as [q qs] eqn:Eq. inversion H; subst.
        simpl. f_equal. now apply IHt.
    + destruct (is_term c && starts_with_space l) eqn:E.
      * destruct (split_parts true l) as [q qs] eqn:Eq. inversion H; subst.
        apply andb_true_iff in E as [Et _].
        simpl. rewrite (upper_term _ Et). f_equal. now apply IHp.
      * destruct (split_parts false l) as [q qs] eqn:Eq. inversion H; subst.
        simpl. f_equal. now apply IHt.
    + destruct (isspace c) eqn:Ec.
      * destruct (split_parts true l) as [q qs] eqn:Eq. inversion H; subst.
        simpl. rewrite (lower_space _ Ec). f_equal. now apply IHp.
      * destruct (is_term c && starts_with_space l) eqn:E.
        -- destruct (split_parts true l) as [q qs] eqn:Eq. inversion H; subst.
           apply andb_true_iff in E as [Et _].
           simpl. rewrite (upper_term _ Et). f_equal. now apply IHp.
        -- destruct (split_parts false l) as [q qs] eqn:Eq. inversion H; subst.
           simpl. f_equal. now apply IHt.
Qed.

(** The split-capitalize-join lines are [cap_go] from the start state. *)
Lemma cap_go_spec s : concat (map capitalize (re_split s)) = cap_go AtStart s.
Proof.
  unfold re_split. destruct (split_parts false s) as [p ps] eqn:E.
  cbn [map concat]. now apply (split_parts_cap s).
Qed.

Lemma fallback_cap_go t : fallback t = cap_go AtStart (normalize t).
Proof. unfold fallback, normalize. apply cap_go_spec. Qed.

Lemma cap_go_recased l : forall st, Forall2 recased l (cap_go st l).
Proof.
  induction l as [|c l IH]; intro st; cbn [cap_go]; [constructor|].
  destruct (in_sep_state st && isspace c); [constructor; [now left | apply IH]|].
  destruct (is_term c && starts_with_space l); [constructor; [now left | apply IH]|].
  constructor; [|apply IH]. destruct (in_text_state st); [right; now right | right; now left].
Qed.

Lemma cap_go_lower l : forall st, str_lower (cap_go st l) = str_lower l.
Proof.
  induction l as [|c l IH]; intro st; cbn [cap_go]; [reflexivity|].
  unfold str_lower in *.
  destruct (in_sep_state st && isspace c); [simpl; now rewrite IH|].
  destruct (is_term c && starts_with_space l); [simpl; now rewrite IH|].
  simpl. rewrite IH. f_equal.
  destruct (in_text_state st); [apply lower_lower | apply lower_upper].
Qed.

Lemma cap_go_starts_with_space l st :
  starts_with_space (cap_go st l) = starts_with_space l.
Proof.
  destruct l as [|c l]; [reflexivity|]. cbn [cap_go].
  destruct (in_sep_state st && isspace c); [reflexivity|].
  destruct (is_term c && starts_with_space l); [reflexivity|].
  simpl. destruct (in_text_state st); [apply isspace_lower | apply isspace_upper].
Qed.

Lemma is_term_lower c : is_term (lower c) = is_term c.
Proof. by_cases_on c. Qed.

Lemma is_term_upper c : is_term (upper c) = is_term c.
Proof. by_cases_on c. Qed.

Lemma cap_go_idempotent l : forall st, cap_go st (cap_go st l) = cap_go st l.
Proof.
  induction l as [|c l IH]; intro st; [reflexivity|]. cbn [cap_go].
  destruct (in_sep_state st && isspace c) eqn:E1.
  { cbn [cap_go]. now rewrite E1, IH. }
  destruct (is_term c && starts_with_space l) eqn:E2.
  { cbn [cap_go]. now rewrite E1, cap_go_starts_with_space, E2, IH. }
  cbn [cap_go]. rewrite cap_go_starts_with_space.
  destruct st; cbn [in_sep_state in_text_state andb] in *.
  - now rewrite is_term_upper, E2, upper_upper, IH.
  - now rewrite is_term_lower, E2, lower_lower, IH.
  - now rewrite isspace_upper, E1, is_term_upper, E2, upper_upper, IH.
Qed.

(** The normal form only looks at character classes that a change of case
    leaves alone. *)
Lemma recased_starts_with_space l l' :
  Forall2 recased l l' -> starts_with_space l' = starts_with_space l.
Proof. intros [|c c' ? ? Hc _]; [reflexivity|]. simpl. apply (recased_classes _ _ Hc). Qed.

Lemma recased_clean_ws l l' :
  Forall2 recased l l' -> forall f, clean_ws f l' = clean_ws f l.
Proof.
  induction 1 as [|c c' m m' Hc _ IH]; intro f; [reflexivity|]. simpl.
  destruct (recased_classes _ _ Hc) as (-> & _ & _ & ->). now rewrite !IH.
Qed.

Lemma recased_ends_with_space l l' :
  Forall2 recased l l' -> ends_with_space l' = ends_with_space l.
Proof.
  induction 1 as [|c c' m m' Hc Hm IH]; [reflexivity|]. cbn [ends_with_space].
  destruct Hm; [apply (recased_classes _ _ Hc) | exact IH].
Qed.

Lemma recased_run_then_punct l l' :
  Forall2 recased l l' -> run_then_punct l' = run_then_punct l.
Proof.
  induction 1 as [|c c' m m' Hc _ IH]; [reflexivity|].
  destruct (recased_classes _ _ Hc) as (Hs & Hp & _ & _).
  destruct (isspace c) eqn:Ec.
  - rewrite !run_then_punct_space; congruence.
  - rewrite !run_then_punct_char; congruence.
Qed.

Lemma recased_no_run_punct l l' :
  Forall2 recased l l' -> no_run_punct l' = no_run_punct l.
Proof.
  induction 1 as [|c c' m m' Hc Hm IH]; [reflexivity|]. cbn [no_run_punct].
  destruct (recased_classes _ _ Hc) as (-> & _ & _ & _).
  now rewrite (recased_run_then_punct _ _ Hm), IH.
Qed.

Lemma recased_normal l l' : Forall2 recased l l' -> normal l -> normal l'.
Proof.
  intros R (Hc & Hl & Ht & Hp). repeat split.
  - now rewrite (recased_clean_ws _ _ R).
  - now rewrite (recased_starts_with_space _ _ R).
  - now rewrite (recased_ends_with_space _ _ R).
  - now rewrite (recased_no_run_punct _ _ R).
Qed.

(** The fallback is idempotent, on every text. *)
Lemma fallback_idempotent t : fallback (fallback t) = fallback t.
Proof.
  rewrite (fallback_cap_go t).
  assert (N : normal (cap_go AtStart (normalize t))).
  { eapply recased_normal; [apply cap_go_recased | apply normalize_normal]. }
  rewrite fallback_cap_go, (normal_fix _ N). apply cap_go_idempotent.
Qed.


(** *** The fallback in the specification's words *)

(** On single-spaced text, dropping whitespace runs before punctuation is
    dropping the space before it. *)
Lemma sub_space_punct_single l :
  forall f, clean_ws f l = true ->
  sub_space_punct l = RepairSpec.remove_space_before_punct l.
Proof.
  induction l as [|c l IH]; intros f H; [reflexivity|].
  cbn [sub_space_punct RepairSpec.remove_space_before_punct].
  simpl in H. destruct l as [|p l'].
  - unfold run_then_punct. simpl. now rewrite andb_false_r.
  - destruct (isspace c) eqn:Ec; simpl andb.
    + apply andb_true_iff in H as [_ H].
      assert (Ep : isspace p = false).
      { simpl in H. destruct (isspace p); [discriminate | reflexivity]. }
      rewrite (run_then_punct_char _ _ Ep), (IH _ H). reflexivity.
    + now rewrite (IH _ H).
Qed.

Lemma normalize_spec t :
  normalize t = RepairSpec.remove_space_before_punct (strip (RepairSpec.collapse t)).
Proof.
  unfold normalize, RepairSpec.collapse, strip.
  apply sub_space_punct_single with (f := false).
  apply rstrip_clean, lstrip_clean with (f := false), sub_ws_clean.
Qed.

Lemma cap_go_head l st d :
  in_text_state st = false ->
  nth 0 (cap_go st l) d = upper (nth 0 l d) \/ l = [].
Proof.
  intro Hst. destruct l as [|c l]; [now right|left]. cbn [cap_go nth].
  destruct (in_sep_state st && isspace c) eqn:E1.
  { apply andb_true_iff in E1 as [_ Ec]. symmetry. now apply space_uncased. }
  destruct (is_term c && starts_with_space l) eqn:E2.
  { apply andb_true_iff in E2 as [Et _]. symmetry. now apply upper_term. }
  now rewrite Hst.
Qed.

Lemma cap_go_after_boundary j :
  forall l st,
  is_term (nth j l " "%char) = true ->
  isspace (nth (S j) l " "%char) = true ->
  (S (S j) < length l)%nat ->
  nth (S (S j)) (cap_go st l) " "%char = upper (nth (S (S j)) l " "%char).
Proof.
  induction j as [|j IH]; intros l st Ht Hs Hlen.
  - destruct l as [|c0 [|c1 [|c2 l]]]; simpl in Hlen; try lia.
    cbn [nth] in Ht, Hs. cbn [cap_go].
    destruct (term_uncased _ Ht) as [_ E0].
    rewrite E0, andb_false_r, Ht. cbn [starts_with_space andb].
    rewrite Hs. cbn [in_sep_state andb nth].
    destruct (cap_go_head (c2 :: l) InSep " "%char eq_refl) as [H|H]; [exact H | discriminate].
  - destruct l as [|c l]; [simpl in Hlen; lia|].
    cbn [nth] in Ht, Hs. simpl in Hlen.
    assert (Hlen' : (S (S j) < length l)%nat) by lia.
    cbn [cap_go].
    destruct (in_sep_state st && isspace c); [apply (IH l InSep Ht Hs Hlen')|].
    destruct (is_term c && starts_with_space l);
      [apply (IH l InSep Ht Hs Hlen') | apply (IH l InText Ht Hs Hlen')].
Qed.

Lemma cap_go_sentence_start s i :
  (i < length s)%nat -> sentence_start s i = true ->
  nth i (cap_go AtStart s) " "%char = upper (nth i s " "%char).
Proof.
  intros Hlen Hst. destruct i as [|[|j]].
  - destruct (cap_go_head s AtStart " "%char eq_refl) as [H|H]; [exact H|].
    subst s. simpl in Hlen. lia.
  - discriminate.
  - simpl in Hst. apply andb_true_iff in Hst as [Ht Hs].
    now apply cap_go_after_boundary.
Qed.

(** The lower-casing of [str.capitalize]: every letter that does not open a
    part comes out in lower case. *)
Example fallback_lowercases_rest :
  fallback (lit "Hello World. I am John") = lit "Hello world. I am john".
Proof. reflexivity. Qed.

(** C2, as stated, fails: the code strips the ends of the text and
    capitalizes its first character, which the specification's transform
    does not. *)
Lemma fallback_differs_from_spec_repair :
  run_language_tool_check None (lit " hi there") false = lit "Hi there" /\
  RepairSpec.spec_repair (lit " hi there") = lit " hi there" /\
  run_language_tool_check None (lit " hi there") false
    <> RepairSpec.spec_repair (lit " hi there").
Proof. repeat split. discriminate. Qed.

(** C2, amended: when the grammar engine is missing or raises, the result
    for an ASCII text is the text with whitespace runs collapsed to one
    space, the ends stripped and the space before [?.!,] removed, up to the
    case of its letters; and its first character and every character that
    follows a terminator and a space are upper-cased.  Outside ASCII the
    case mapping of Python can change the number of characters, as
    [Unicode.title] shows. *)
Theorem fallback_recases_normal_form
    (tool : option (text -> option text)) (t : text) (is_article : bool) :
  ascii_text t = true ->
  (tool = None \/ exists f, tool = Some f /\ f t = None) ->
  let s := RepairSpec.remove_space_before_punct (strip (RepairSpec.collapse t)) in
  let r := run_language_tool_check tool t is_article in
  str_lower r = str_lower s /\
  (forall i, (i < length s)%nat -> sentence_start s i = true ->
     nth i r " "%char = upper (nth i s " "%char)).
Proof.
  intros _ Htool s r.
  assert (Hr : r = cap_go AtStart s).
  { subst r s. rewrite <- normalize_spec, <- fallback_cap_go.
    unfold run_language_tool_check.
    destruct Htool as [-> | (f & -> & ->)]; reflexivity. }
  rewrite Hr. split; [apply cap_go_lower|].
  intros i Hlen Hst. now apply cap_go_sentence_start.
Qed.

Lemma fallback_recases_normal_form_witness :
  ascii_text Samples.untidy = true /\
  (Samples.broken_tool = None \/
   exists f, Samples.broken_tool = Some f /\ f Samples.untidy = None) /\
  RepairSpec.remove_space_before_punct (strip (RepairSpec.collapse Samples.untidy))
    = lit "hello World. how ARE you?" /\
  run_language_tool_check Samples.broken_tool Samples.untidy true
    = lit "Hello world. How are you?" /\
  str_lower (run_language_tool_check Samples.broken_tool Samples.untidy true)
    = str_lower
        (RepairSpec.remove_space_before_punct (strip (RepairSpec.collapse Samples.untidy))).
Proof.
  assert (H : Samples.broken_tool = None \/
              exists f, Samples.broken_tool = Some f /\ f Samples.untidy = None).
  { right. exists (fun _ => None). split; reflexivity. }
  split; [reflexivity|].
  split; [exact H|]. split; [reflexivity|]. split; [reflexivity|].
  exact (proj1 (fallback_recases_normal_form
                  Samples.broken_tool Samples.untidy true eq_refl H)).
Defined.

(** The functions of [Generic], at the ASCII classes, are those of
    [Repair]. *)
Lemma generic_fallback_ascii t :
  Generic.fallback isspace is_punct is_term " "%char capitalize t = fallback t.
Proof. unfold fallback, Generic.fallback. reflexivity. Qed.

(** On ASCII text the alphabet of [Unicode] computes what [Repair]
    computes. *)
Lemma of_text_sub_ws l : forall f,
  Generic.sub_ws Unicode.isspace (Unicode.Ch " ") f (map Unicode.Ch l)
  = map Unicode.Ch (sub_ws f l).
Proof.
  induction l as [|c l IH]; intro f; cbn; [reflexivity|].
  destruct (isspace c); [destruct f|]; cbn; now rewrite IH.
Qed.

Lemma of_text_lstrip l :
  Generic.lstrip Unicode.isspace (map Unicode.Ch l) = map Unicode.Ch (lstrip l).
Proof.
  induction l as [|c l IH]; cbn; [reflexivity|].
  destruct (isspace c); [exact IH | reflexivity].
Qed.

Lemma of_text_rstrip l :
  Generic.rstrip Unicode.isspace (map Unicode.Ch l) = map Unicode.Ch (rstrip l).
Proof.
  induction l as [|c l IH]; cbn; [reflexivity|].
  rewrite IH. destruct (rstrip l); cbn; [destruct (isspace c)|]; reflexivity.
Qed.

Lemma of_text_run_then_punct l :
  Generic.run_then_punct Unicode.isspace Unicode.is_punct (map Unicode.Ch l)
  = run_then_punct l.
Proof.
  unfold Generic.run_then_punct, run_then_punct. rewrite of_text_lstrip.
  now destruct (lstrip l).
Qed.

Lemma of_text_sub_space_punct l :
  Generic.sub_space_punct Unicode.isspace Unicode.is_punct (map Unicode.Ch l)
  = map Unicode.Ch (sub_space_punct l).
Proof.
  induction l as [|c l IH]; cbn; [reflexivity|].
  rewrite (of_text_run_then_punct l).
  destruct (isspace c && run_then_punct l); cbn; now rewrite IH.
Qed.

Lemma of_text_split_parts l : forall f,
  Generic.split_parts Unicode.isspace Unicode.is_term f (map Unicode.Ch l)
  = (map Unicode.Ch (fst (split_parts f l)),
     map (map Unicode.Ch) (snd (split_parts f l))).
Proof.
  induction l as [|c l IH]; intro f; cbn; [now destruct f|].
  assert (Hs : Generic.starts_with_space Unicode.isspace (map Unicode.Ch l)
               = starts_with_space l) by now destruct l.
  rewrite Hs.
  destruct (f && isspace c).
  - rewrite (IH true). now destruct (split_parts true l).
  - destruct (is_term c && starts_with_space l).
    + rewrite (IH true). destruct (split_parts true l). now destruct f.
    + rewrite (IH false). destruct (split_parts false l). now destruct f.
Qed.

Lemma of_text_capitalize p :
  Unicode.capitalize (map Unicode.Ch p) = map Unicode.Ch (capitalize p).
Proof.
  destruct p as [|c r]; cbn; [reflexivity|]. f_equal.
  unfold Unicode.str_lower.
  induction r as [|d r IH]; cbn; [reflexivity|]. now rewrite IH.
Qed.

Lemma unicode_fallback_of_text t :
  Unicode.fallback (Unicode.of_text t) = Unicode.of_text (fallback t).
Proof.
  unfold Unicode.of_text.
  unfold Unicode.fallback, Generic.fallback, fallback, Generic.strip, strip.
  rewrite of_text_sub_ws, of_text_lstrip, of_text_rstrip, of_text_sub_space_punct.
  unfold Generic.re_split, re_split. rewrite of_text_split_parts.
  destruct (split_parts false _) as [p ps]. cbn [fst snd map concat].
  rewrite of_text_capitalize, map_app.
  f_equal. induction ps as [|q ps IH]; cbn [map concat]; [reflexivity|].
  now rewrite of_text_capitalize, IH, map_app.
Qed.

(** C9, as stated, fails beyond ASCII.  The one-character text U+0149 has no
    whitespace, so both conditions of the claim hold of it.
    [str.capitalize] turns it into the two characters U+02BC [N]; applied
    again, it lower-cases the [N], which is no longer the first
    character. *)
Lemma fallback_twice_differs_beyond_ascii :
  Unicode.has_space [Unicode.U0149] = false /\
  Unicode.fallback [Unicode.U0149] = [Unicode.U02BC; Unicode.Ch "N"] /\
  Unicode.fallback (Unicode.fallback [Unicode.U0149])
    = [Unicode.U02BC; Unicode.Ch "n"] /\
  Unicode.fallback (Unicode.fallback [Unicode.U0149])
    <> Unicode.fallback [Unicode.U0149].
Proof. repeat split. discriminate. Qed.

(** C9, amended: on an ASCII text without double spaces and without a space
    before punctuation, the fallback applied twice gives what it gives
    applied once.  The two conditions are those of the specification; on
    ASCII text the proof does not need them, see [fallback_idempotent]. *)
Theorem fallback_idempotent_on_clean_input (t : text) :
  ascii_text t = true ->
  RepairSpec.no_double_space t = true ->
  RepairSpec.no_space_before_punct t = true ->
  fallback (fallback t) = fallback t.
Proof. intros _ _ _. apply fallback_idempotent. Qed.

Lemma fallback_idempotent_on_clean_input_witness :
  ascii_text Samples.tidy = true /\
  RepairSpec.no_double_space Samples.tidy = true /\
  RepairSpec.no_space_before_punct Samples.tidy = true /\
  fallback Samples.tidy = lit "Hello there. How are you?" /\
  fallback (fallback Samples.tidy) = fallback Samples.tidy.
Proof.
  split; [reflexivity|]. split; [reflexivity|]. split; [reflexivity|].
  split; [reflexivity|].
  exact (fallback_idempotent_on_clean_input Samples.tidy eq_refl eq_refl eq_refl).
Defined.

End RepairFacts.

(** ** The history table *)

Module HistoryFacts.

Import History.
Local Open Scope Z_scope.

(** *** Sorted lists *)

Lemma in_firstn {A : Type} (x : A) n l : In x (firstn n l) -> In x l.
Proof. intro H. rewrite <- (firstn_skipn n l). apply in_or_app. now left. Qed.

Lemma StronglySorted_firstn {A : Type} (R : A -> A -> Prop) n :
  forall l, StronglySorted R l -> StronglySorted R (firstn n l).
Proof.
  induction n as [|n IH]; intros l H; [constructor|].
  destruct l as [|a l]; [constructor|]. simpl.
  apply StronglySorted_inv in H as [Hl Ha]. constructor; [now apply IH|].
  rewrite Forall_forall in *. intros x Hx. apply Ha. eapply in_firstn. exact Hx.
Qed.

Lemma StronglySorted_snoc {A : Type} (R : A -> A -> Prop) l a :
  StronglySorted R l -> Forall (fun x => R x a) l -> StronglySorted R (l ++ [a]).
Proof.
  induction l as [|b l IH]; intros Hs Hf; simpl.
  - constructor; constructor.
  - apply StronglySorted_inv in Hs as [Hl Hb]. inversion Hf; subst.
    constructor; [now apply IH|].
    apply Forall_app. split; [assumption | now constructor].
Qed.

Lemma StronglySorted_rev {A : Type} (R : A -> A -> Prop) l :
  StronglySorted R l -> StronglySorted (fun a b => R b a) (rev l).
Proof.
  induction 1 as [|a l Hl IH Ha]; simpl; [constructor|].
  apply StronglySorted_snoc; [assumption|].
  rewrite Forall_forall in *. intros x Hx. apply Ha. now apply in_rev.
Qed.

(** *** The insertion-sort engine *)

Lemma insert_desc_perm r l : Permutation (insert_desc r l) (r :: l).
Proof.
  induction l as [|x l IH]; simpl; [reflexivity|].
  destruct (created_at x <=? created_at r); [reflexivity|].
  rewrite IH. apply perm_swap.
Qed.

Lemma sort_desc_perm l : Permutation (sort_desc l) l.
Proof.
  induction l as [|r l IH]; simpl; [reflexivity|].
  rewrite insert_desc_perm. now constructor.
Qed.

Lemma insert_desc_sorted r l :
  StronglySorted newer_first l -> StronglySorted newer_first (insert_desc r l).
Proof.
  induction 1 as [|x l Hl IH Hx]; simpl; [repeat constructor|].
  destruct (created_at x <=? created_at r) eqn:E.
  - apply Z.leb_le in E. constructor; [now constructor|].
    constructor; [exact E|]. rewrite Forall_forall in *. intros y Hy.
    specialize (Hx y Hy). unfold newer_first in *. lia.
  - apply Z.leb_gt in E. constructor; [assumption|].
    rewrite Forall_forall in *. intros y Hy.
    apply (Permutation_in _ (insert_desc_perm r l)) in Hy. destruct Hy as [<- | Hy].
    + unfold newer_first. lia.
    + now apply Hx.
Qed.

Lemma sort_desc_sorted l : StronglySorted newer_first (sort_desc l).
Proof.
  induction l as [|r l IH]; simpl; [constructor | now apply insert_desc_sorted].
Qed.

#[export] Instance sqlite_stable : SqlEngine := {|
  order_by_created_at_desc := sort_desc;
  order_perm := sort_desc_perm;
  order_sorted := sort_desc_sorted
|}.

(** *** [load_history_for_channel] *)

Section Load.

Context {engine : SqlEngine}.

Lemma load_history_rows ch limit t :
  load_history_for_channel ch limit t = map role_content (loaded_rows ch limit t).
Proof. unfold load_history_for_channel, loaded_rows. now rewrite map_rev. Qed.

Lemma sql_limit_length n l : 0 <= n -> Z.of_nat (length (sql_limit n l)) <= n.
Proof.
  intro Hn. unfold sql_limit. destruct (n <? 0) eqn:E; [apply Z.ltb_lt in E; lia|].
  pose proof (firstn_le_length (Z.to_nat n) l). lia.
Qed.

Lemma sql_limit_incl n l : incl (sql_limit n l) l.
Proof.
  unfold sql_limit. destruct (n <? 0); [apply incl_refl|].
  intros x Hx. eapply in_firstn. exact Hx.
Qed.

Lemma sql_limit_sorted n l :
  StronglySorted newer_first l -> StronglySorted newer_first (sql_limit n l).
Proof.
  intro H. unfold sql_limit. destruct (n <? 0); [assumption|].
  now apply StronglySorted_firstn.
Qed.

Lemma sql_limit_all n l : Z.of_nat (length l) <= n -> sql_limit n l = l.
Proof.
  intro H. unfold sql_limit. destruct (n <? 0) eqn:E; [reflexivity|].
  apply firstn_all2. lia.
Qed.

Lemma loaded_rows_length ch limit t :
  0 <= limit -> Z.of_nat (length (loaded_rows ch limit t)) <= limit.
Proof.
  intro H. unfold loaded_rows, select_recent. rewrite length_rev.
  now apply sql_limit_length.
Qed.

Lemma loaded_rows_sorted ch limit t : StronglySorted older_first (loaded_rows ch limit t).
Proof.
  unfold loaded_rows, select_recent.
  apply (StronglySorted_rev newer_first), sql_limit_sorted, order_sorted.
Qed.

Lemma loaded_rows_in ch limit t r :
  In r (loaded_rows ch limit t) -> In r t /\ channel_id r = ch.
Proof.
  unfold loaded_rows, select_recent. intro H.
  apply in_rev, sql_limit_incl in H.
  apply (Permutation_in _ (order_perm _)), filter_In in H as [H1 H2].
  split; [assumption | now apply Z.eqb_eq].
Qed.

Lemma loaded_rows_all ch limit t :
  Z.of_nat (length (filter (on_channel ch) t)) <= limit ->
  Permutation (loaded_rows ch limit t) (filter (on_channel ch) t).
Proof.
  intro H. unfold loaded_rows, select_recent. fold (on_channel ch).
  rewrite sql_limit_all.
  - rewrite <- Permutation_rev. apply order_perm.
  - now rewrite (Permutation_length (order_perm _)).
Qed.

(** What every engine gives: for a limit of at least one,
    [load_history_for_channel] returns at most [limit] entries, rows of the
    channel with their recorded times non-decreasing, and all of the
    channel's rows when there are no more than [limit] of them.  The
    recorded time counts seconds; the order of rows written within one
    second is not settled by it. *)
Lemma load_history_bounded_by_recorded_time (ch limit : Z) (t : Table) :
  1 <= limit ->
  let rows := loaded_rows ch limit t in
  load_history_for_channel ch limit t = map role_content rows /\
  Z.of_nat (length (load_history_for_channel ch limit t)) <= limit /\
  StronglySorted older_first rows /\
  (forall r, In r rows -> In r t /\ channel_id r = ch) /\
  (Z.of_nat (length (filter (on_channel ch) t)) <= limit ->
   Permutation rows (filter (on_channel ch) t)).
Proof.
  intros Hl rows. split; [apply load_history_rows|].
  split; [rewrite load_history_rows, length_map; apply loaded_rows_length; lia|].
  split; [apply loaded_rows_sorted|].
  split; [apply loaded_rows_in | apply loaded_rows_all].
Qed.

End Load.

Lemma load_history_bounded_by_recorded_time_witness :
  1 <= 2 /\
  load_history_for_channel 5 2 Samples.table5
    = [(lit "user", lit "three"); (lit "assistant", lit "four")] /\
  Z.of_nat (length (load_history_for_channel 5 2 Samples.table5)) <= 2.
Proof.
  assert (H : 1 <= 2) by lia.
  split; [exact H|]. split; [reflexivity|].
  exact (proj1 (proj2 (load_history_bounded_by_recorded_time 5 2 Samples.table5 H))).
Defined.

(** [CURRENT_TIMESTAMP] counts seconds, so rows written within one second
    have equal [created_at]; which of them comes first is the engine's
    choice.  With [sqlite_stable] a turn saved within a second is read back
    answer first. *)
Example same_second_rows :
  load_history_for_channel 5 10
    [Samples.row 5 "user" "hi" 20; Samples.row 5 "assistant" "You said: hi" 20]
  = [(lit "assistant", lit "You said: hi"); (lit "user", lit "hi")].
Proof. reflexivity. Qed.

(** C7: the entries are not always oldest first.  Two rows saved on one
    channel within one second, the user's row and then the assistant's as
    [on_message] saves them, are loaded in the opposite order: the later
    insertion comes first.  The engine is [sqlite_stable]; the limit is any
    limit of at least two, so both rows are returned. *)
Theorem same_second_rows_loaded_newest_first
    (ch now limit : Z) (question answer : text) :
  2 <= limit ->
  load_history_for_channel ch limit
    (save_message_to_history now ch (lit "assistant") answer
       (save_message_to_history now ch (lit "user") question []))
  = [(lit "assistant", answer); (lit "user", question)].
Proof.
  intro Hl.
  unfold load_history_for_channel, select_recent, save_message_to_history.
  cbv beta iota delta [app filter on_channel channel_id]. rewrite Z.eqb_refl.
  cbv beta iota delta [order_by_created_at_desc sqlite_stable sort_desc fold_right
                       insert_desc created_at].
  rewrite Z.leb_refl. unfold sql_limit.
  destruct (Z.ltb_spec limit 0) as [Hn|_]; [lia|].
  destruct (Z.to_nat limit) as [|[|n]] eqn:E; [lia | lia |].
  cbn [firstn]. rewrite firstn_nil. reflexivity.
Qed.

Lemma same_second_rows_loaded_newest_first_witness :
  2 <= 12 /\
  load_history_for_channel 5 12
    (save_message_to_history 20 5 (lit "assistant") (lit "You said: hi")
       (save_message_to_history 20 5 (lit "user") (lit "hi") []))
  = [(lit "assistant", lit "You said: hi"); (lit "user", lit "hi")].
Proof.
  assert (H : 2 <= 12) by lia.
  split; [exact H|].
  exact (same_second_rows_loaded_newest_first 5 20 12 (lit "hi") (lit "You said: hi") H).
Defined.


End HistoryFacts.

(** ** The bot *)

Module BotFacts.

Import TextFacts Bot.
Import (hints) HistoryFacts.
Local Open Scope Z_scope.

(** *** The denylist *)

Example contains_profanity_samples :
  map (fun s => contains_profanity (lit s))
    [ "badword1"; "a BADWORD2!"; "badword1x"; "xbadword1"; "bad word1";
      "_badword1"; "(badword2)"; "" ]%string
  = [ true; true; false; false; false; false; true; false ].
Proof. reflexivity. Qed.

Example search_link_samples :
  search_link (lit "https://discord.com/channels/1/22/333")
    = Some (lit "1", lit "22", lit "333") /\
  search_link (lit "channels/1/22/") = None /\
  search_link (lit "123456789012345678") = None.
Proof. repeat split. Qed.

Lemma last_default {A : Type} (l : list A) (d d' : A) :
  l <> [] -> last l d = last l d'.
Proof.
  induction l as [|a l IH]; [congruence|]. intros _.
  destruct l as [|b l]; [reflexivity|]. cbn [last]. apply IH. discriminate.
Qed.

Lemma last_char_cons prev c l : last_char prev (c :: l) = last_char (Some c) l.
Proof.
  unfold last_char. destruct l as [|b l]; [reflexivity|].
  transitivity (last (map Some (b :: l)) prev); [reflexivity|].
  apply last_default. discriminate.
Qed.

Lemma last_char_lower l :
  forall d d', is_word_opt d = is_word_opt d' ->
  is_word_opt (last_char d (str_lower l)) = is_word_opt (last_char d' l).
Proof.
  induction l as [|c l IH]; intros d d' H; [exact H|].
  cbn [str_lower map]. rewrite !last_char_cons. apply IH. simpl. apply is_word_lower.
Qed.

Lemma head_lower l : is_word_opt (head (str_lower l)) = is_word_opt (head l).
Proof. destruct l as [|c l]; [reflexivity|]. simpl. apply is_word_lower. Qed.

Lemma search_word_here w prev l : match_at w prev l = true -> search_word w prev l = true.
Proof. intro H. destruct l; simpl; now rewrite H. Qed.

Lemma search_word_later w prev c l :
  search_word w (Some c) l = true -> search_word w prev (c :: l) = true.
Proof. intro H. cbn [search_word]. rewrite H. apply orb_true_r. Qed.

Section Occurrence.

(** A term that begins and ends with a word character. *)
Variable w : text.
Hypothesis w_head : is_word_opt (head w) = true.
Hypothesis w_last : is_word_opt (last_char None w) = true.

Lemma search_word_occurrence pre post :
  forall prev,
  is_word_opt (last_char prev pre) = false ->
  is_word_opt (head post) = false ->
  search_word w prev (pre ++ w ++ post) = true.
Proof.
  induction pre as [|c pre IH]; intros prev Hpre Hpost.
  - apply search_word_here. unfold match_at. cbn [app].
    rewrite strip_prefix_app.
    assert (Hw : w <> []) by (intro E; rewrite E in w_head; discriminate).
    destruct w as [|a w'] eqn:Ew; [congruence|].
    cbn [app head]. unfold word_boundary.
    unfold last_char in Hpre. simpl in Hpre. rewrite Hpre.
    simpl in w_head. simpl is_word_opt at 1. rewrite w_head.
    replace (last_char prev (a :: w')) with (last_char None (a :: w'))
      by (unfold last_char; apply last_default; discriminate).
    now rewrite w_last, Hpost.
  - cbn [app]. apply search_word_later. apply IH; [|assumption].
    now rewrite <- (last_char_cons prev).
Qed.

End Occurrence.

Lemma contains_profanity_whole_word t :
  holds_denylisted_word t -> contains_profanity t = true.
Proof.
  intros (w & pre & mid & post & Hw & -> & Hmid & Hpre & Hpost).
  unfold contains_profanity. apply existsb_exists. exists w. split; [assumption|].
  rewrite !str_lower_app, Hmid.
  assert (Hterm : str_lower w = w /\ is_word_opt (head w) = true /\
                  is_word_opt (last_char None w) = true).
  { destruct Hw as [<- | [<- | []]]; repeat split. }
  destruct Hterm as (-> & Hh & Hl).
  apply search_word_occurrence; try assumption.
  - now rewrite (last_char_lower pre None None eq_refl).
  - now rewrite head_lower.
Qed.

Lemma ascii_delimiter_not_word c :
  ascii_delimiter c = true -> is_word_opt c = false.
Proof.
  destruct c as [c|]; [|reflexivity]. simpl. intro H.
  apply andb_true_iff in H. destruct H as [_ H]. now apply negb_true_iff in H.
Qed.

Lemma delimited_whole_word t :
  holds_delimited_denylisted_word t -> holds_denylisted_word t.
Proof.
  intros (w & pre & mid & post & Hw & Ht & Hmid & Hpre & Hpost).
  exists w, pre, mid, post.
  repeat split; try assumption; now apply ascii_delimiter_not_word.
Qed.



(** *** Moderation commands *)

(** C6: a kick by a user without the kick permission who is not the owner
    gets the ephemeral refusal and nothing else: no confirmation, no kick. *)
Theorem kick_without_permission_denied
    (env : Env) (i : Interaction) (member : Member) (reason : option text) (w : World) :
  kick_members i = false ->
  user_id i <> BOT_OWNER_ID env ->
  cmd_kick env i member reason w = (tt, extend w [EvRespond no_permission_kick true]).
Proof.
  intros Hp Ho. unfold cmd_kick. rewrite Hp.
  apply Z.eqb_neq in Ho. rewrite Ho. reflexivity.
Qed.

Lemma kick_without_permission_denied_witness :
  kick_members Samples.guest = false /\
  user_id Samples.guest <> BOT_OWNER_ID Samples.env_offline /\
  cmd_kick Samples.env_offline Samples.guest Samples.bob None Samples.world0
    = (tt, extend Samples.world0 [EvRespond no_permission_kick true]).
Proof.
  assert (Ho : user_id Samples.guest <> BOT_OWNER_ID Samples.env_offline) by discriminate.
  split; [reflexivity|]. split; [exact Ho|].
  exact (kick_without_permission_denied Samples.env_offline Samples.guest
           Samples.bob None Samples.world0 eq_refl Ho).
Defined.

Lemma may_timeout_guard env i :
  may_timeout env i ->
  negb (moderate_members i) && negb (user_id i =? BOT_OWNER_ID env) = false.
Proof.
  intros [H | H]; [now rewrite H|].
  apply Z.eqb_eq in H. rewrite H. apply andb_false_r.
Qed.

(** C5: a timeout by an authorized user with minutes below 0 or above 40320
    gets the ephemeral range error and nothing else: no confirmation, no
    call to the platform. *)
Theorem timeout_out_of_range_rejected
    (env : Env) (i : Interaction) (member : Member) (minutes : Z)
    (reason : option text) (w : World) :
  may_timeout env i ->
  minutes < 0 \/ minutes > 40320 ->
  cmd_timeout env i member minutes reason w = (tt, extend w [EvRespond range_error true]).
Proof.
  intros Ha Hr. unfold cmd_timeout. rewrite (may_timeout_guard env i Ha).
  replace ((minutes <? 0) || (minutes >? 40320)) with true; [reflexivity|].
  symmetry. apply orb_true_iff. destruct Hr as [Hr | Hr].
  - left. now apply Z.ltb_lt.
  - right. rewrite Z.gtb_ltb. apply Z.ltb_lt. lia.
Qed.

Lemma timeout_out_of_range_rejected_witness :
  may_timeout Samples.env_offline Samples.moderator /\
  (50000 < 0 \/ 50000 > 40320) /\
  cmd_timeout Samples.env_offline Samples.moderator Samples.bob 50000 None Samples.world0
    = (tt, extend Samples.world0 [EvRespond range_error true]).
Proof.
  assert (Ha : may_timeout Samples.env_offline Samples.moderator) by (left; reflexivity).
  assert (Hr : 50000 < 0 \/ 50000 > 40320) by (right; reflexivity).
  split; [exact Ha|]. split; [exact Hr|].
  exact (timeout_out_of_range_rejected Samples.env_offline Samples.moderator
           Samples.bob 50000 None Samples.world0 Ha Hr).
Defined.

(** C10, as stated, fails: when the platform refuses, the handler reports
    the failure and not a removal. *)
Lemma timeout_zero_platform_refusal :
  may_timeout Samples.env_forbidden Samples.moderator /\
  events (snd (cmd_timeout Samples.env_forbidden Samples.moderator Samples.bob 0 None
                 Samples.world0))
  = [ EvRespond (lit "Sure! I’ll timeout for 0 minutes Bob immediately for **no reason provided**.") false;
      EvSleep 1;
      EvTimeout 11 None None;
      EvChannelSend 5 (lit "Failed to timeout Bob: 403 Forbidden") ] /\
  ~ In (EvChannelSend 5 (timeout_removed_report Samples.bob None))
       (events (snd (cmd_timeout Samples.env_forbidden Samples.moderator Samples.bob 0 None
                       Samples.world0))).
Proof.
  split; [left; reflexivity|]. split; [reflexivity|].
  intro H. vm_compute in H. repeat (destruct H as [H | H]; [discriminate H|]). exact H.
Qed.

(** C10, amended: a timeout of 0 minutes by an authorized user is not
    rejected and sets no expiry: after the confirmation the handler calls
    the platform's timeout with no expiry, once, and reports the removal
    when the call succeeds and the failure with its reason when it
    raises. *)
Theorem timeout_zero_removes
    (env : Env) (i : Interaction) (member : Member) (reason : option text) (w : World) :
  may_timeout env i ->
  let confirm :=
    make_chatgpt_confirmation (lit "timeout for 0 minutes") (display_name member) reason in
  let before := events w ++ [EvRespond confirm false; EvSleep 1] in
  let report :=
    match member_timeout env before member None reason with
    | Ok _ => timeout_removed_report member reason
    | Raise e => timeout_failed_report member e
    end in
  cmd_timeout env i member 0 reason w
  = (tt, extend w [ EvRespond confirm false; EvSleep 1;
                    EvTimeout (member_id member) None reason;
                    EvChannelSend (interaction_channel i) report ]).
Proof.
  intros Ha confirm before report. unfold cmd_timeout.
  rewrite (may_timeout_guard env i Ha). cbn [Z.ltb Z.gtb Z.compare orb Z.eqb].
  unfold bind, emit, call, extend. cbn [events table]. subst report before confirm.
  rewrite <- !app_assoc. cbn [app].
  destruct (member_timeout env _ member None reason);
    unfold timeout_removed_report, timeout_failed_report;
    cbn [events table]; rewrite <- !app_assoc; reflexivity.
Qed.

Lemma timeout_zero_removes_witness :
  may_timeout Samples.env_offline Samples.moderator /\
  cmd_timeout Samples.env_offline Samples.moderator Samples.bob 0 (Some (lit "served")) Samples.world0
  = (tt, extend Samples.world0
       [ EvRespond (lit "Sure! I’ll timeout for 0 minutes Bob immediately for **served**.") false;
         EvSleep 1;
         EvTimeout 11 None (Some (lit "served"));
         EvChannelSend 5 (lit "<@11> timeout removed. Reason: served") ]).
Proof.
  assert (Ha : may_timeout Samples.env_offline Samples.moderator) by (left; reflexivity).
  split; [exact Ha|].
  exact (timeout_zero_removes Samples.env_offline Samples.moderator Samples.bob
           (Some (lit "served")) Samples.world0 Ha).
Defined.


(** *** Identifier resolution *)

Lemma search_link_digits l : forallb isdigit l = true -> search_link l = None.
Proof.
  induction l as [|c l IH]; intro H; [reflexivity|].
  simpl in H. apply andb_true_iff in H as [Hc Hl].
  cbn [search_link]. unfold match_link_at.
  change (lit "channels/") with ("c"%char :: lit "hannels/").
  cbn [strip_prefix]. rewrite (isdigit_not_letter c Hc). now apply IH.
Qed.

Lemma str_isdigit_inv s :
  str_isdigit s = true -> s <> [] /\ forallb isdigit s = true.
Proof. destruct s as [|c r]; [discriminate|]. intro H. split; [discriminate | exact H]. Qed.

Lemma search_link_tail_digits l :
  forallb isdigit l = true -> search_link_tail l = None.
Proof.
  induction l as [|c l IH]; intro H; [reflexivity|].
  simpl in H. apply andb_true_iff in H as [Hc Hl].
  cbn [search_link_tail]. unfold match_link_tail_at.
  change (lit "/channels/") with ("/"%char :: lit "channels/").
  cbn [strip_prefix]. rewrite (isdigit_not_slash c Hc). now apply IH.
Qed.

Lemma parse_link_tail_digits l :
  forallb isdigit l = true -> parse_link_tail l = Some tt.
Proof.
  intro H. unfold parse_link_tail. now rewrite (search_link_tail_digits l H).
Qed.

Lemma py_int_short s :
  (length s <= int_max_str_digits)%nat -> py_int s = Some (int_of_digits s).
Proof.
  intro H. unfold py_int. now apply Nat.leb_le in H as ->.
Qed.

Lemma py_int_long s :
  (int_max_str_digits < length s)%nat -> py_int s = None.
Proof.
  intro H. unfold py_int. now apply Nat.leb_gt in H as ->.
Qed.

(** C8, as stated, fails: [int] raises on an identifier of more than 4300
    digits, the raise is swallowed, and the message is never asked for by
    its id, although the platform here would find it; the last resort
    runs. *)
Lemma overlong_digits_not_fetched :
  str_isdigit Samples.overlong_id = true /\
  length Samples.overlong_id = 4301%nat /\
  fetch_message_from_identifier Samples.env_found Samples.moderator
    (Some Samples.overlong_id) Samples.world0
  = (None, extend Samples.world0 [EvChannelHistory 5 10]).
Proof.
  split; [vm_compute; reflexivity|]. split; [apply repeat_length|].
  vm_compute. reflexivity.
Qed.

(** C8, amended: an identifier of 1 to 4300 digits is first looked up as a
    message id in the current channel.  If that fetch answers, its message
    is the result and nothing else is asked; if it raises, no channel is
    resolved from a link (the identifier matches no link pattern) and the
    last resort runs. *)
Theorem digits_resolve_in_current_channel
    (env : Env) (i : Interaction) (identifier : text) (w : World) :
  str_isdigit identifier = true ->
  (length identifier <= int_max_str_digits)%nat ->
  let ch := interaction_channel i in
  let id := int_of_digits identifier in
  let w' := extend w [EvFetchMessage ch id] in
  fetch_message_from_identifier env i (Some identifier) w
  = match channel_fetch_message env (events w) ch id with
    | Ok msg => (Some msg, w')
    | Raise _ => last_resort env i w'
    end.
Proof.
  intros Hd Hlen ch id w'. destruct (str_isdigit_inv identifier Hd) as [Hne Hall].
  destruct identifier as [|c r]; [congruence|].
  unfold fetch_message_from_identifier.
  rewrite (parse_link_tail_digits (c :: r) Hall), Hd, (py_int_short (c :: r) Hlen).
  unfold bind at 1. unfold call at 1. fold ch id.
  destruct (channel_fetch_message env (events w) ch id); [reflexivity|].
  unfold resolve_by_link. now rewrite (search_link_digits (c :: r) Hall).
Qed.

Lemma digits_resolve_in_current_channel_witness :
  str_isdigit (lit "123456789012345678") = true /\
  (length (lit "123456789012345678") <= int_max_str_digits)%nat /\
  fetch_message_from_identifier Samples.env_offline Samples.moderator
    (Some (lit "123456789012345678")) Samples.world0
  = (None, extend Samples.world0
             [EvFetchMessage 5 123456789012345678; EvChannelHistory 5 10]).
Proof.
  assert (Hlen : (length (lit "123456789012345678") <= int_max_str_digits)%nat).
  { apply Nat.leb_le. reflexivity. }
  split; [reflexivity|]. split; [exact Hlen|].
  exact (digits_resolve_in_current_channel Samples.env_offline Samples.moderator
           (lit "123456789012345678") Samples.world0 eq_refl Hlen).
Defined.

(** The [if m:] block matters: an identifier that ends in a link whose
    channel group is too long for [int] is not resolved at all, although a
    link that could be resolved comes first in it. *)
Example overlong_link_tail_skips_link :
  events (snd (fetch_message_from_identifier Samples.env_linked Samples.moderator
                 (Some (lit "channels/1/22/333 /channels/1/"
                          ++ Samples.overlong_id ++ lit "/3"))
                 Samples.world0))
  = [EvChannelHistory 5 10].
Proof. vm_compute. reflexivity. Qed.

(** A link is resolved through its channel. *)
Example link_resolves_by_channel :
  events (snd (fetch_message_from_identifier Samples.env_offline Samples.moderator
                 (Some (lit "https://discord.com/channels/1/22/333")) Samples.world0))
  = [EvGetChannel 22; EvFetchChannel 22; EvChannelHistory 5 10].
Proof. reflexivity. Qed.

(** *** The chat turn *)

Section Turn.

Context (env : Env) {engine : History.SqlEngine}.

Lemma gate_effect t w :
  exists calls, Forall service_call calls /\
    snd (is_content_safe env t w) = extend w calls.
Proof.
  unfold is_content_safe.
  destruct (contains_profanity t).
  { exists []. split; [constructor|]. unfold ret, extend. simpl. rewrite app_nil_r. now destruct w. }
  destruct (OPENAI_enabled env).
  - exists [EvModeration t]. split; [repeat constructor|].
    unfold bind, call. destruct (moderation_create env (events w) t) as [[]|]; reflexivity.
  - exists []. split; [constructor|]. unfold ret, extend. simpl. rewrite app_nil_r. now destruct w.
Qed.

Lemma draft_effect h t w :
  exists calls, Forall service_call calls /\
    snd (draft_reply env h t w) = extend w calls.
Proof.
  unfold draft_reply. destruct (OPENAI_enabled env).
  - exists [EvChatCompletion (chat_prompt h t)]. split; [repeat constructor|].
    unfold bind, call.
    destruct (chat_completion_create env (events w) (chat_prompt h t)); reflexivity.
  - exists []. split; [constructor|]. unfold ret, extend. simpl. rewrite app_nil_r. now destruct w.
Qed.

(** C1, amended: for a message written by a user (not by a bot) that
    replies to a message of the bot and whose text passes the gate, the
    handler appends two rows for the channel, the user's text and then the
    assistant's reply, and replies once, with the text of the second row;
    between accepting the message and the reply it only calls the
    services. *)
Theorem accepted_turn_appends_two_rows_and_replies (message : Message) (w : World) :
  author_bot message = false ->
  reference_author message = Some (bot_user_id env) ->
  fst (is_content_safe env (message_content message)
         (extend w [EvProcessCommands (message_id message)])) = true ->
  exists reply at_user at_reply calls,
    Forall service_call calls /\
    on_message env message w =
    (tt, {| table := table w ++
              [ {| History.channel_id := message_channel message;
                   History.role := lit "user";
                   History.content := message_content message;
                   History.created_at := at_user |};
                {| History.channel_id := message_channel message;
                   History.role := lit "assistant";
                   History.content := reply;
                   History.created_at := at_reply |} ];
            events := events w ++ [EvProcessCommands (message_id message)] ++
                      calls ++ [EvReply (message_id message) reply] |}).
Proof.
  intros Hbot Href Hsafe. unfold on_message.
  unfold bind at 1. unfold emit at 1. fold (extend w [EvProcessCommands (message_id message)]).
  rewrite Hbot, Href, Z.eqb_refl.
  set (w1 := extend w [EvProcessCommands (message_id message)]) in *.
  unfold bind at 1.
  destruct (gate_effect (message_content message) w1) as (c1 & Hc1 & E1).
  destruct (is_content_safe env (message_content message) w1) as [safe w2].
  simpl in Hsafe, E1. subst safe w2. cbn [negb].
  unfold bind at 1. unfold save_message_to_history at 1.
  unfold bind at 1. unfold load_history_for_channel at 1.
  unfold bind at 1. cbn [events table extend].
  match goal with |- context [draft_reply env ?h ?t ?w3] =>
    destruct (draft_effect h t w3) as (c2 & Hc2 & E2);
    destruct (draft_reply env h t w3) as [draft w4] end.
  simpl in E2. subst w4.
  unfold bind at 1.
  match goal with |- context [is_content_safe env ?t ?w5] =>
    destruct (gate_effect t w5) as (c3 & Hc3 & E3);
    destruct (is_content_safe env t w5) as [safe_out w6] end.
  simpl in E3. subst w6.
  unfold bind, save_message_to_history, emit. cbn [events table extend].
  subst w1. cbn [events table extend].
  unfold History.save_message_to_history. rewrite <- !app_assoc. cbn [app].
  eexists _, _, _, (c1 ++ c2 ++ c3). split.
  - repeat (apply Forall_app; split); assumption.
  - rewrite <- !app_assoc. reflexivity.
Qed.

End Turn.


Lemma accepted_turn_appends_two_rows_and_replies_witness :
  author_bot Samples.human_reply = false /\
  reference_author Samples.human_reply = Some (bot_user_id Samples.env_offline) /\
  fst (is_content_safe Samples.env_offline (message_content Samples.human_reply)
         (extend Samples.world0 [EvProcessCommands 1001])) = true /\
  snd (on_message Samples.env_offline Samples.human_reply Samples.world0)
  = {| table := [ Samples.row 5 "user" "hello" 1700000000;
                  {| History.channel_id := 5;
                     History.role := lit "assistant";
                     History.content := echo_reply (lit "hello");
                     History.created_at := 1700000000 |} ];
       events := [ EvProcessCommands 1001;
                   EvReply 1001 (echo_reply (lit "hello")) ] |} /\
  exists reply at_user at_reply calls,
    Forall service_call calls /\
    on_message Samples.env_offline Samples.human_reply Samples.world0 =
    (tt, {| table := table Samples.world0 ++
              [ {| History.channel_id := 5; History.role := lit "user";
                   History.content := lit "hello"; History.created_at := at_user |};
                {| History.channel_id := 5; History.role := lit "assistant";
                   History.content := reply; History.created_at := at_reply |} ];
            events := events Samples.world0 ++ [EvProcessCommands 1001] ++
                      calls ++ [EvReply 1001 reply] |}).
Proof.
  split; [reflexivity|]. split; [reflexivity|]. split; [reflexivity|].
  split; [reflexivity|].
  exact (accepted_turn_appends_two_rows_and_replies Samples.env_offline
           Samples.human_reply Samples.world0 eq_refl eq_refl eq_refl).
Defined.

(** C1, as stated, fails: a reply to the bot that a bot wrote passes the
    gate and is dropped by the author check; no row is appended and nothing
    is sent. *)
Lemma bot_author_turn_ignored :
  reference_author Samples.bot_reply = Some (bot_user_id Samples.env_offline) /\
  fst (is_content_safe Samples.env_offline (message_content Samples.bot_reply)
         (extend Samples.world0 [EvProcessCommands 1002])) = true /\
  on_message Samples.env_offline Samples.bot_reply Samples.world0
  = (tt, {| table := []; events := [EvProcessCommands 1002] |}).
Proof. repeat split. Qed.

(** C4, as stated, fails: the apology goes through the output gate like any
    reply, and a moderation service that flags it has it replaced by the
    refusal, which is then what is stored and sent. *)
Lemma flagged_apology_replaced :
  author_bot Samples.human_reply = false /\
  reference_author Samples.human_reply = Some (bot_user_id Samples.env_strict) /\
  fst (is_content_safe Samples.env_strict (message_content Samples.human_reply)
         (extend Samples.world0 [EvProcessCommands 1001])) = true /\
  (forall evs ms, chat_completion_create Samples.env_strict evs ms = Raise (lit "timeout")) /\
  snd (on_message Samples.env_strict Samples.human_reply Samples.world0)
  = {| table := [ Samples.row 5 "user" "hello" 1700000000;
                  {| History.channel_id := 5;
                     History.role := lit "assistant";
                     History.content := refusal_output;
                     History.created_at := 1700000000 |} ];
       events := [ EvProcessCommands 1001;
                   EvModeration (lit "hello");
                   EvChatCompletion
                     [ (lit "system", system_prompt); (lit "user", lit "hello");
                       (lit "user", lit "hello") ];
                   EvModeration apology;
                   EvReply 1001 refusal_output ] |} /\
  refusal_output <> apology.
Proof. repeat split. discriminate. Qed.

Section CompletionFailure.

Context (env : Env) {engine : History.SqlEngine}.

(** C4, amended: in an accepted turn whose completion request raises, the
    reply is the apology unless the moderation service flags the apology at
    the output gate, and then it is the refusal; the reply sent is the
    content of the assistant row. *)
Theorem completion_failure_reply
    (message : Message) (w w2 : World) (e : text) :
  author_bot message = false ->
  reference_author message = Some (bot_user_id env) ->
  is_content_safe env (message_content message)
    (extend w [EvProcessCommands (message_id message)]) = (true, w2) ->
  OPENAI_enabled env = true ->
  let ch := message_channel message in
  let user_text := message_content message in
  let table1 :=
    History.save_message_to_history
      (current_timestamp env (events w2) (table w2)) ch (lit "user") user_text (table w2) in
  let prompt := chat_prompt (History.load_history_for_channel ch 10 table1) user_text in
  chat_completion_create env (events w2) prompt = Raise e ->
  let asked := events w2 ++ [EvChatCompletion prompt] in
  let reply :=
    match moderation_create env asked apology with
    | Ok true => refusal_output
    | _ => apology
    end in
  let checked := asked ++ [EvModeration apology] in
  on_message env message w
  = (tt, {| table :=
              History.save_message_to_history
                (current_timestamp env checked table1) ch (lit "assistant") reply table1;
            events := checked ++ [EvReply (message_id message) reply] |}).
Proof.
  intros Hbot Href Hsafe Hopen ch user_text table1 prompt Hraise asked reply checked.
  unfold on_message.
  unfold bind at 1. unfold emit at 1. fold (extend w [EvProcessCommands (message_id message)]).
  rewrite Hbot, Href, Z.eqb_refl.
  unfold bind at 1. rewrite Hsafe. cbn [negb].
  unfold bind at 1. unfold save_message_to_history at 1.
  unfold bind at 1. unfold load_history_for_channel at 1.
  cbn [events table]. fold ch user_text. fold table1.
  unfold draft_reply. rewrite Hopen. fold prompt.
  unfold bind at 1. unfold bind at 1. unfold call at 1. cbn [events table].
  rewrite Hraise. unfold ret at 1.
  unfold is_content_safe. change (contains_profanity apology) with false.
  rewrite Hopen. cbv iota.
  unfold bind at 1. unfold bind at 1. unfold call at 1. cbn [events table].
  fold asked. subst reply.
  destruct (moderation_create env asked apology) as [[]|];
    unfold ret, bind, save_message_to_history, emit; cbn [events table negb];
    reflexivity.
Qed.

End CompletionFailure.

Lemma completion_failure_reply_witness :
  author_bot Samples.human_reply = false /\
  reference_author Samples.human_reply = Some (bot_user_id Samples.env_outage) /\
  is_content_safe Samples.env_outage (lit "hello")
    (extend Samples.world0 [EvProcessCommands 1001])
  = (true, extend Samples.world0 [EvProcessCommands 1001; EvModeration (lit "hello")]) /\
  OPENAI_enabled Samples.env_outage = true /\
  on_message Samples.env_outage Samples.human_reply Samples.world0
  = (tt, {| table := [ Samples.row 5 "user" "hello" 1700000000;
                       {| History.channel_id := 5;
                          History.role := lit "assistant";
                          History.content := apology;
                          History.created_at := 1700000000 |} ];
            events := [ EvProcessCommands 1001;
                        EvModeration (lit "hello");
                        EvChatCompletion
                          [ (lit "system", system_prompt); (lit "user", lit "hello");
                            (lit "user", lit "hello") ];
                        EvModeration apology;
                        EvReply 1001 apology ] |}).
Proof.
  split; [reflexivity|]. split; [reflexivity|]. split; [reflexivity|].
  split; [reflexivity|].
  exact (completion_failure_reply Samples.env_outage Samples.human_reply
           Samples.world0
           (extend Samples.world0 [EvProcessCommands 1001; EvModeration (lit "hello")])
           (lit "timeout") eq_refl eq_refl eq_refl eq_refl eq_refl).
Defined.


End BotFacts.

(** * Further properties *)

(** ** The fallback transform *)

Module RepairMore.

Import TextFacts Repair RepairFacts Notions.

Lemma punct_not_space c : is_punct c = true -> isspace c = false.
Proof. by_cases_on c. Qed.

Lemma fallback_normal t : normal (fallback t).
Proof.
  rewrite fallback_cap_go.
  eapply recased_normal; [apply cap_go_recased | apply normalize_normal].
Qed.

Lemma clean_ws_no_double l :
  forall f, clean_ws f l = true -> RepairSpec.no_double_space l = true.
Proof.
  induction l as [|c l IH]; intros f H; [reflexivity|].
  simpl in H |- *. destruct (isspace c) eqn:Ec.
  - apply andb_true_iff in H as [_ H]. rewrite (IH true H), andb_true_r.
    destruct l as [|d l]; [reflexivity|]. simpl in H |- *.
    destruct (isspace d); [discriminate | reflexivity].
  - simpl. now apply (IH false).
Qed.

Lemma clean_ws_spaces l :
  forall f, clean_ws f l = true -> Forall (fun c => isspace c = true -> c = " "%char) l.
Proof.
  induction l as [|c l IH]; intros f H; [constructor|].
  simpl in H. destruct (isspace c) eqn:Ec.
  - apply andb_true_iff in H as [H Hl]. apply andb_true_iff in H as [_ Hc].
    constructor; [intros _; now apply ascii_eqb_eq | now apply (IH true)].
  - constructor; [intro E; congruence | now apply (IH false)].
Qed.

Lemma no_run_punct_before l :
  no_run_punct l = true -> RepairSpec.no_space_before_punct l = true.
Proof.
  induction l as [|c l IH]; [reflexivity|].
  cbn [no_run_punct RepairSpec.no_space_before_punct]. intro H.
  apply andb_true_iff in H as [Hc Hl]. rewrite (IH Hl), andb_true_r.
  destruct l as [|p l]; [now rewrite andb_false_r|].
  destruct (is_punct p) eqn:Ep; [|now rewrite andb_false_r].
  now rewrite (run_then_punct_char p l (punct_not_space p Ep)), Ep in Hc.
Qed.

(** X1: whatever the input, the fallback's result has no two whitespace
    characters in a row, no whitespace before one of [?.!,], none at either
    end, and no whitespace character other than the space. *)
Theorem fallback_result_tidy (t : text) :
  RepairSpec.no_double_space (fallback t) = true /\
  RepairSpec.no_space_before_punct (fallback t) = true /\
  starts_with_space (fallback t) = false /\
  ends_with_space (fallback t) = false /\
  Forall (fun c => isspace c = true -> c = " "%char) (fallback t).
Proof.
  destruct (fallback_normal t) as (Hc & Hl & Ht & Hp).
  repeat split; try assumption.
  - now apply clean_ws_no_double with (f := false).
  - now apply no_run_punct_before.
  - now apply clean_ws_spaces with (f := false).
Qed.

(** *** What the fallback keeps *)

Lemma visible_sub_ws l : forall f, visible (sub_ws f l) = visible l.
Proof.
  induction l as [|c l IH]; intro f; [reflexivity|]. simpl.
  destruct (isspace c) eqn:Ec; simpl.
  - destruct f; simpl; apply IH.
  - rewrite Ec. simpl. now rewrite IH.
Qed.

Lemma visible_lstrip l : visible (lstrip l) = visible l.
Proof.
  induction l as [|c l IH]; [reflexivity|]. simpl.
  destruct (isspace c) eqn:Ec; simpl; [exact IH | now rewrite Ec].
Qed.

Lemma visible_rstrip l : visible (rstrip l) = visible l.
Proof.
  induction l as [|c l IH]; [reflexivity|]. cbn [rstrip].
  destruct (rstrip l) as [|x r].
  - unfold visible in *. cbn [filter] in IH. cbn [filter]. rewrite <- IH.
    destruct (isspace c) eqn:Ec; simpl; [reflexivity | now rewrite Ec].
  - unfold visible in *. cbn [filter]. cbn [filter] in IH. now rewrite <- IH.
Qed.

Lemma visible_sub_space_punct l : visible (sub_space_punct l) = visible l.
Proof.
  induction l as [|c l IH]; [reflexivity|]. cbn [sub_space_punct].
  destruct (isspace c) eqn:Ec; simpl andb.
  - destruct (run_then_punct l); simpl; rewrite Ec; simpl; exact IH.
  - simpl. rewrite Ec. simpl. now rewrite IH.
Qed.

Lemma visible_normalize t : visible (normalize t) = visible t.
Proof.
  unfold normalize, strip.
  now rewrite visible_sub_space_punct, visible_rstrip, visible_lstrip, visible_sub_ws.
Qed.

Lemma visible_lower l : visible (str_lower l) = str_lower (visible l).
Proof.
  induction l as [|c l IH]; [reflexivity|]. simpl. rewrite isspace_lower.
  destruct (isspace c); simpl; now rewrite IH.
Qed.

(** X2: of an ASCII text the fallback keeps every character that is not
    whitespace, in order, changing at most its case: it adds none, drops
    none and swaps none. *)
Theorem fallback_keeps_visible_characters (t : text) :
  ascii_text t = true ->
  str_lower (visible (fallback t)) = str_lower (visible t).
Proof.
  intros _.
  rewrite <- !visible_lower, fallback_cap_go, cap_go_lower, !visible_lower.
  now rewrite visible_normalize.
Qed.

(** *** Length *)

Lemma length_sub_ws l : forall f, (length (sub_ws f l) <= length l)%nat.
Proof.
  induction l as [|c l IH]; intro f; simpl; [lia|].
  destruct (isspace c); [destruct f|]; simpl;
    [specialize (IH true) | specialize (IH true) | specialize (IH false)]; lia.
Qed.

Lemma length_lstrip l : (length (lstrip l) <= length l)%nat.
Proof.
  induction l as [|c l IH]; simpl; [lia|]. destruct (isspace c); simpl; lia.
Qed.

Lemma length_rstrip l : (length (rstrip l) <= length l)%nat.
Proof.
  induction l as [|c l IH]; [simpl; lia|]. cbn [rstrip].
  destruct (rstrip l) as [|x r]; [destruct (isspace c); simpl; lia|].
  simpl in *. lia.
Qed.

Lemma length_sub_space_punct l : (length (sub_space_punct l) <= length l)%nat.
Proof.
  induction l as [|c l IH]; [simpl; lia|]. cbn [sub_space_punct].
  destruct (isspace c && run_then_punct l); simpl; lia.
Qed.

Lemma length_cap_go l : forall st, length (cap_go st l) = length l.
Proof.
  intro st. rewrite <- (length_map lower (cap_go st l)), <- (length_map lower l).
  f_equal. apply cap_go_lower.
Qed.

Lemma fallback_keeps_visible_characters_witness :
  ascii_text Samples.untidy = true /\
  visible Samples.untidy = lit "helloWorld.howAREyou?" /\
  visible (fallback Samples.untidy) = lit "Helloworld.Howareyou?" /\
  str_lower (visible (fallback Samples.untidy)) = str_lower (visible Samples.untidy).
Proof.
  split; [reflexivity|]. split; [reflexivity|]. split; [reflexivity|].
  exact (fallback_keeps_visible_characters Samples.untidy eq_refl).
Defined.

(** X3: the fallback never makes an ASCII text longer. *)
Theorem fallback_not_longer (t : text) :
  ascii_text t = true -> (length (fallback t) <= length t)%nat.
Proof.
  intros _.
  rewrite fallback_cap_go, length_cap_go. unfold normalize, strip.
  pose proof (length_sub_space_punct (rstrip (lstrip (sub_ws false t)))).
  pose proof (length_rstrip (lstrip (sub_ws false t))).
  pose proof (length_lstrip (sub_ws false t)).
  pose proof (length_sub_ws t false). lia.
Qed.

Lemma fallback_not_longer_witness :
  ascii_text Samples.untidy = true /\
  length Samples.untidy = 34%nat /\
  length (fallback Samples.untidy) = 25%nat /\
  (length (fallback Samples.untidy) <= length Samples.untidy)%nat.
Proof.
  split; [reflexivity|]. split; [reflexivity|]. split; [reflexivity|].
  exact (fallback_not_longer Samples.untidy eq_refl).
Defined.

(** *** Blank input *)

Lemma visible_nil l : visible l = [] <-> forallb isspace l = true.
Proof.
  induction l as [|c l IH]; [now split|]. simpl.
  destruct (isspace c); simpl; [exact IH | split; discriminate].
Qed.

(** X4: for an ASCII text the fallback returns the empty string exactly
    when the text is made of whitespace only, the empty one included. *)
Theorem fallback_empty_iff_blank (t : text) :
  ascii_text t = true ->
  (fallback t = [] <-> forallb isspace t = true).
Proof.
  intros _.
  assert (K : str_lower (visible (fallback t)) = str_lower (visible t)).
  { rewrite <- !visible_lower, fallback_cap_go, cap_go_lower, !visible_lower.
    now rewrite visible_normalize. }
  split; intro H.
  - rewrite H in K. simpl in K. apply visible_nil.
    destruct (visible t); [reflexivity | discriminate K].
  - apply visible_nil in H. rewrite H in K. simpl in K.
    destruct (fallback_normal t) as (_ & Hl & _ & _).
    destruct (fallback t) as [|c r]; [reflexivity|]. exfalso.
    simpl in Hl, K. unfold visible in K. simpl in K. rewrite Hl in K. discriminate K.
Qed.

Lemma fallback_empty_iff_blank_witness :
  ascii_text Samples.blank = true /\
  forallb isspace Samples.blank = true /\
  fallback Samples.blank = [].
Proof.
  split; [reflexivity|]. split; [reflexivity|].
  exact (proj2 (fallback_empty_iff_blank Samples.blank eq_refl) eq_refl).
Defined.

End RepairMore.

(** ** The content gate *)

Module GateMore.

Import TextFacts Bot BotFacts Notions.
Local Open Scope Z_scope.

Lemma strip_prefix_inv w :
  forall l rest, strip_prefix w l = Some rest -> l = w ++ rest.
Proof.
  induction w as [|a w IH]; intros l rest H; simpl in H.
  - now inversion H.
  - destruct l as [|b l]; [discriminate|].
    destruct (ascii_eqb a b) eqn:E; [|discriminate].
    apply ascii_eqb_eq in E. subst b. simpl. f_equal. now apply IH.
Qed.

Section Found.

(** A term that begins and ends with a word character. *)
Variable w : text.
Hypothesis w_head : is_word_opt (head w) = true.
Hypothesis w_last : is_word_opt (last_char None w) = true.

Lemma match_at_inv prev l :
  match_at w prev l = true ->
  exists post, l = w ++ post /\ is_word_opt prev = false /\
               is_word_opt (head post) = false.
Proof.
  unfold match_at, word_boundary. intro H.
  apply andb_true_iff in H as [Hb Hm].
  destruct (strip_prefix w l) as [rest|] eqn:E; [|discriminate].
  apply strip_prefix_inv in E. subst l. exists rest.
  destruct w as [|a w'] eqn:Ew; [discriminate w_head|].
  split; [reflexivity|].
  cbn [app head] in Hb. simpl in w_head. simpl is_word_opt at 2 in Hb.
  rewrite w_head in Hb.
  replace (last_char prev (a :: w')) with (last_char None (a :: w')) in Hm
    by (unfold last_char; apply last_default; discriminate).
  rewrite w_last in Hm.
  split.
  - destruct (is_word_opt prev); [discriminate | reflexivity].
  - destruct (is_word_opt (head rest)); [discriminate | reflexivity].
Qed.

Lemma search_word_inv l :
  forall prev, search_word w prev l = true ->
  exists pre post, l = pre ++ w ++ post /\
    is_word_opt (last_char prev pre) = false /\
    is_word_opt (head post) = false.
Proof.
  induction l as [|c l IH]; intros prev H; cbn [search_word] in H;
    apply orb_true_iff in H as [H | H].
  - destruct (match_at_inv prev [] H) as (post & E & Hp & Hq).
    exists [], post. auto.
  - discriminate.
  - destruct (match_at_inv prev (c :: l) H) as (post & E & Hp & Hq).
    exists [], post. auto.
  - destruct (IH (Some c) H) as (pre & post & E & Hp & Hq).
    exists (c :: pre), post. subst l. rewrite last_char_cons. auto.
Qed.

End Found.

Lemma denylist_terms w :
  In w PROFANITY ->
  str_lower w = w /\ is_word_opt (head w) = true /\
  is_word_opt (last_char None w) = true.
Proof. intros [<- | [<- | []]]; repeat split. Qed.

Lemma contains_profanity_inv t :
  contains_profanity t = true -> holds_denylisted_word t.
Proof.
  unfold contains_profanity. intro H.
  apply existsb_exists in H as (w & Hw & Hs).
  destruct (denylist_terms w Hw) as (Hlow & Hh & Hl).
  destruct (search_word_inv w Hh Hl _ None Hs) as (pre & post & E & Hp & Hq).
  unfold str_lower in E.
  apply map_eq_app in E as (pre' & rest & -> & Epre & E).
  apply map_eq_app in E as (mid & post' & -> & Emid & Epost).
  exists w, pre', mid, post'. repeat split; try assumption.
  - rewrite Hlow. exact Emid.
  - rewrite <- (last_char_lower pre' None None eq_refl).
    unfold str_lower. now rewrite Epre.
  - rewrite <- head_lower. unfold str_lower. now rewrite Epost.
Qed.

(** X5: the local check flags an ASCII text exactly when the text holds a
    denylisted term as a whole word, in any case: a term inside a longer
    word is not flagged. *)
Theorem contains_profanity_iff_whole_word (t : text) :
  ascii_text t = true ->
  (contains_profanity t = true <-> holds_denylisted_word t).
Proof.
  intros _.
  split; [apply contains_profanity_inv | apply contains_profanity_whole_word].
Qed.

Lemma contains_profanity_iff_whole_word_witness :
  ascii_text (lit "xbadword1 and badword12") = true /\
  contains_profanity (lit "xbadword1 and badword12") = false /\
  ~ holds_denylisted_word (lit "xbadword1 and badword12").
Proof.
  split; [reflexivity|]. split; [reflexivity|].
  intro H.
  apply (proj2 (contains_profanity_iff_whole_word
                  (lit "xbadword1 and badword12") eq_refl)) in H.
  discriminate H.
Defined.

(** X6: the gate fails open.  A text without a denylisted word is refused
    only when a key is configured and the moderation service answers
    "flagged"; when the service raises, or no key is configured, the text
    is safe. *)
Theorem gate_refuses_only_when_flagged (env : Env) (t : text) (w : World) :
  ~ holds_denylisted_word t ->
  fst (is_content_safe env t w)
  = negb (OPENAI_enabled env && flagged (moderation_create env (events w) t)).
Proof.
  intro H. unfold is_content_safe.
  destruct (contains_profanity t) eqn:E.
  { exfalso. apply H. now apply contains_profanity_inv. }
  destruct (OPENAI_enabled env); [|reflexivity].
  unfold bind, call. simpl.
  destruct (moderation_create env (events w) t) as [[]|]; reflexivity.
Qed.

Lemma gate_refuses_only_when_flagged_witness :
  ~ holds_denylisted_word (lit "hello") /\
  fst (is_content_safe Samples.env_outage (lit "hello") Samples.world0) = true.
Proof.
  assert (H : ~ holds_denylisted_word (lit "hello")).
  { intro H. apply contains_profanity_whole_word in H. discriminate H. }
  split; [exact H|].
  exact (gate_refuses_only_when_flagged Samples.env_outage (lit "hello") Samples.world0 H).
Defined.

End GateMore.

(** ** The history table *)

Module HistoryMore.

Import History HistoryFacts.
Local Open Scope Z_scope.

Lemma StronglySorted_app_inv {A : Type} (R : A -> A -> Prop) l1 :
  forall l2, StronglySorted R (l1 ++ l2) ->
  forall x y, In x l1 -> In y l2 -> R x y.
Proof.
  induction l1 as [|a l1 IH]; intros l2 H x y Hx Hy; [destruct Hx|].
  simpl in H. apply StronglySorted_inv in H as [Hs Ha].
  destruct Hx as [<- | Hx].
  - rewrite Forall_forall in Ha. apply Ha. apply in_or_app. now right.
  - now apply (IH l2 Hs).
Qed.

Section Load.

Context {engine : SqlEngine}.

(** X7: the entries that [load_history_for_channel] leaves out are no newer
    than the ones it returns: the channel's rows are the returned rows and
    rows that are at most as recent as each of them. *)
Theorem load_history_most_recent (ch limit : Z) (t : Table) :
  exists older,
    Permutation (filter (on_channel ch) t) (older ++ loaded_rows ch limit t) /\
    forall r r', In r older -> In r' (loaded_rows ch limit t) ->
      created_at r <= created_at r'.
Proof.
  unfold loaded_rows, select_recent.
  set (sorted := order_by_created_at_desc (filter (on_channel ch) t)).
  assert (P : Permutation (filter (on_channel ch) t) sorted)
    by (symmetry; apply order_perm).
  assert (S : StronglySorted newer_first sorted) by apply order_sorted.
  unfold sql_limit. destruct (limit <? 0).
  - exists []. split; [simpl; rewrite <- Permutation_rev; exact P | intros r r' []].
  - exists (skipn (Z.to_nat limit) sorted). split.
    + rewrite P at 1. rewrite <- (firstn_skipn (Z.to_nat limit) sorted) at 1.
      rewrite Permutation_app_comm. apply Permutation_app_head, Permutation_rev.
    + intros r r' Hr Hr'. apply in_rev in Hr'.
      rewrite <- (firstn_skipn (Z.to_nat limit) sorted) in S.
      apply (StronglySorted_app_inv newer_first _ _ S r' r Hr' Hr).
Qed.

(** X8: a limit of 0 loads nothing, and a negative limit is no limit: all the
    rows of the channel are loaded. *)
Theorem nonpositive_limit (ch limit : Z) (t : Table) :
  limit <= 0 ->
  Permutation (load_history_for_channel ch limit t)
              (if limit =? 0 then [] else map role_content (filter (on_channel ch) t)).
Proof.
  intro H. rewrite load_history_rows.
  unfold loaded_rows, select_recent, sql_limit.
  destruct (limit =? 0) eqn:E0.
  - apply Z.eqb_eq in E0. subst limit. reflexivity.
  - apply Z.eqb_neq in E0.
    replace (limit <? 0) with true by (symmetry; apply Z.ltb_lt; lia).
    apply Permutation_map. rewrite <- Permutation_rev. apply order_perm.
Qed.

(** X9: what is saved on one channel does not change what is loaded for
    another. *)
Theorem save_elsewhere_keeps_history
    (ch other limit now : Z) (r c : text) (t : Table) :
  other <> ch ->
  load_history_for_channel ch limit (save_message_to_history now other r c t)
  = load_history_for_channel ch limit t.
Proof.
  intro H. unfold load_history_for_channel, select_recent, save_message_to_history.
  rewrite filter_app. apply Z.eqb_neq in H.
  change (filter (on_channel ch)
            [{| channel_id := other; role := r; content := c; created_at := now |}])
    with (if other =? ch
          then [{| channel_id := other; role := r; content := c; created_at := now |}]
          else []).
  rewrite H. now rewrite app_nil_r.
Qed.

Lemma newest_row_first (new : Row) (rest sorted : list Row) :
  Permutation sorted (rest ++ [new]) ->
  StronglySorted newer_first sorted ->
  (forall r, In r rest -> created_at r < created_at new) ->
  exists tail, sorted = new :: tail.
Proof.
  intros P S Hnew. destruct sorted as [|x tail].
  - apply Permutation_nil in P. destruct rest; discriminate.
  - exists tail. f_equal.
    assert (Hx : In x (rest ++ [new])) by (apply (Permutation_in _ P); now left).
    apply in_app_or in Hx as [Hx | [Hx | []]]; [|now symmetry].
    exfalso. apply StronglySorted_inv in S as [_ Ha]. rewrite Forall_forall in Ha.
    assert (Hn : In new (x :: tail)).
    { apply (Permutation_in _ (Permutation_sym P)). apply in_or_app. right. now left. }
    destruct Hn as [Hn | Hn].
    + subst x. specialize (Hnew new Hx). lia.
    + specialize (Ha new Hn). specialize (Hnew x Hx). unfold newer_first in Ha. lia.
Qed.

Lemma saved_row_selected_first
    (ch limit now : Z) (r c : text) (t : Table) :
  1 <= limit ->
  (forall x, In x t -> channel_id x = ch -> created_at x < now) ->
  exists others,
    select_recent ch limit (save_message_to_history now ch r c t)
    = {| channel_id := ch; role := r; content := c; created_at := now |} :: others.
Proof.
  intros Hl Hnew. unfold select_recent, save_message_to_history.
  rewrite filter_app.
  set (new := {| channel_id := ch; role := r; content := c; created_at := now |}).
  change (filter (on_channel ch) [new]) with (if ch =? ch then [new] else []).
  rewrite Z.eqb_refl.
  destruct (newest_row_first new (filter (on_channel ch) t)
              (order_by_created_at_desc (filter (on_channel ch) t ++ [new])))
    as [tail E].
  - apply order_perm.
  - apply order_sorted.
  - intros x Hx. apply filter_In in Hx as [Hx Hc]. apply Z.eqb_eq in Hc.
    now apply Hnew.
  - rewrite E. unfold sql_limit.
    replace (limit <? 0) with false by (symmetry; apply Z.ltb_ge; lia).
    destruct (Z.to_nat limit) as [|n] eqn:En; [lia|].
    cbn [firstn]. eexists. reflexivity.
Qed.

(** X10: a row saved with a time stamp later than every row of its channel
    is the last entry loaded for that channel, for every limit of at least
    one. *)
Theorem saved_row_loaded_last
    (ch limit now : Z) (r c : text) (t : Table) :
  1 <= limit ->
  (forall x, In x t -> channel_id x = ch -> created_at x < now) ->
  exists earlier,
    load_history_for_channel ch limit (save_message_to_history now ch r c t)
    = earlier ++ [(r, c)].
Proof.
  intros Hl Hnew.
  destruct (saved_row_selected_first ch limit now r c t Hl Hnew) as [others E].
  unfold load_history_for_channel. rewrite E. cbn [map rev role_content role content].
  now exists (rev (map role_content others)).
Qed.

End Load.

Lemma nonpositive_limit_witness :
  -1 <= 0 /\
  load_history_for_channel 5 0 Samples.table5 = [] /\
  load_history_for_channel 5 (-1) Samples.table5
  = [ (lit "user", lit "one"); (lit "assistant", lit "two");
      (lit "user", lit "three"); (lit "assistant", lit "four") ] /\
  Permutation (load_history_for_channel 5 (-1) Samples.table5)
    (map role_content (filter (on_channel 5) Samples.table5)).
Proof.
  assert (H : -1 <= 0) by lia.
  split; [exact H|]. split; [reflexivity|]. split; [reflexivity|].
  exact (nonpositive_limit 5 (-1) Samples.table5 H).
Defined.

Lemma saved_row_loaded_last_witness :
  1 <= 3 /\
  (forall x, In x Samples.table5 -> channel_id x = 5 -> created_at x < 20) /\
  exists earlier,
    load_history_for_channel 5 3
      (save_message_to_history 20 5 (lit "user") (lit "five") Samples.table5)
    = earlier ++ [(lit "user", lit "five")].
Proof.
  assert (Hl : 1 <= 3) by lia.
  assert (Hn : forall x, In x Samples.table5 -> channel_id x = 5 -> created_at x < 20).
  { intros x [<- | [<- | [<- | [<- | [<- | []]]]]] _; reflexivity. }
  split; [exact Hl|]. split; [exact Hn|].
  exact (saved_row_loaded_last 5 3 20 (lit "user") (lit "five") Samples.table5 Hl Hn).
Defined.

Lemma save_elsewhere_keeps_history_witness :
  6 <> 5 /\
  load_history_for_channel 5 2
    (save_message_to_history 20 6 (lit "user") (lit "hi") Samples.table5)
  = load_history_for_channel 5 2 Samples.table5.
Proof.
  assert (H : 6 <> 5) by discriminate.
  split; [exact H|].
  exact (save_elsewhere_keeps_history 5 6 2 20 (lit "user") (lit "hi") Samples.table5 H).
Defined.

End HistoryMore.

(** ** The chat turn *)

Module TurnMore.

Import TextFacts Bot BotFacts GateMore Notions.
Import (hints) HistoryFacts.
Local Open Scope Z_scope.

Section Turn.

Context (env : Env) {engine : History.SqlEngine}.

(** The accepted turn, step by step. *)
Lemma on_message_accepted (message : Message) (w w2 : World) :
  author_bot message = false ->
  reference_author message = Some (bot_user_id env) ->
  is_content_safe env (message_content message)
    (extend w [EvProcessCommands (message_id message)]) = (true, w2) ->
  on_message env message w =
  let ch := message_channel message in
  let user_text := message_content message in
  let table1 :=
    History.save_message_to_history
      (current_timestamp env (events w2) (table w2)) ch (lit "user") user_text (table w2) in
  let (draft, w4) :=
    draft_reply env (History.load_history_for_channel ch 10 table1) user_text
      {| table := table1; events := events w2 |} in
  let (safe_out, w5) := is_content_safe env draft w4 in
  let reply := if negb safe_out then refusal_output else draft in
  (tt, {| table :=
            History.save_message_to_history
              (current_timestamp env (events w5) (table w5)) ch (lit "assistant")
              reply (table w5);
          events := events w5 ++ [EvReply (message_id message) reply] |}).
Proof.
  intros Hbot Href Hsafe. unfold on_message.
  unfold bind at 1. unfold emit at 1. fold (extend w [EvProcessCommands (message_id message)]).
  rewrite Hbot, Href, Z.eqb_refl.
  unfold bind at 1. rewrite Hsafe. cbn [negb].
  unfold bind at 1. unfold save_message_to_history at 1.
  unfold bind at 1. unfold load_history_for_channel at 1.
  unfold bind at 1. cbn [events table]. cbv zeta.
  destruct (draft_reply env _ (message_content message) _) as [draft w4].
  unfold bind at 1. destruct (is_content_safe env draft w4) as [safe_out w5].
  reflexivity.
Qed.

(** X11: the handler saves the user's text before it loads the history, and
    adds the text to the request again: when the clock is ahead of the
    channel's rows, the messages sent to the completion service end with
    the user's text twice. *)
Theorem completion_request_repeats_user_text (message : Message) (w w2 : World) :
  author_bot message = false ->
  reference_author message = Some (bot_user_id env) ->
  is_content_safe env (message_content message)
    (extend w [EvProcessCommands (message_id message)]) = (true, w2) ->
  OPENAI_enabled env = true ->
  (forall x, In x (table w2) ->
     History.channel_id x = message_channel message ->
     History.created_at x < current_timestamp env (events w2) (table w2)) ->
  exists earlier,
    In (EvChatCompletion
          (earlier ++ [ (lit "user", message_content message);
                        (lit "user", message_content message) ]))
       (events (snd (on_message env message w))).
Proof.
  intros Hbot Href Hsafe Hopen Hclock.
  rewrite (on_message_accepted message w w2 Hbot Href Hsafe). cbv zeta.
  destruct (HistoryMore.saved_row_selected_first (message_channel message) 10
              (current_timestamp env (events w2) (table w2))
              (lit "user") (message_content message) (table w2))
    as [others E]; [lia | exact Hclock |].
  set (earlier := rev (map History.role_content others)).
  exists ([(lit "system", system_prompt)] ++ earlier).
  unfold History.load_history_for_channel. rewrite E. cbn [map rev]. fold earlier.
  match goal with
  | |- context [History.role_content (History.Build_Row ?a ?b ?c ?d)] =>
      change (History.role_content (History.Build_Row a b c d)) with (b, c)
  end.
  unfold draft_reply. rewrite Hopen.
  unfold bind at 1. unfold call at 1. cbn [events table].
  set (prompt := chat_prompt (earlier ++ [(lit "user", message_content message)])
                   (message_content message)).
  assert (Ep : prompt = ([(lit "system", system_prompt)] ++ earlier) ++
                 [ (lit "user", message_content message);
                   (lit "user", message_content message) ]).
  { unfold prompt, chat_prompt. now rewrite <- !app_assoc. }
  rewrite <- Ep.
  destruct (chat_completion_create env (events w2) prompt) as [c|e]; unfold ret;
    match goal with |- context [is_content_safe env ?t ?w4] =>
      destruct (gate_effect env t w4) as (calls & _ & Ec);
      destruct (is_content_safe env t w4) as [safe_out w5] end;
    simpl in Ec; subst w5; cbn [snd events table extend];
    rewrite !in_app_iff; left; left; right; now left.
Qed.

Lemma on_message_refused (message : Message) (w w2 : World) :
  author_bot message = false ->
  reference_author message = Some (bot_user_id env) ->
  is_content_safe env (message_content message)
    (extend w [EvProcessCommands (message_id message)]) = (false, w2) ->
  on_message env message w
  = (tt, extend w2 [EvChannelSend (message_channel message) refusal_input]).
Proof.
  intros Hbot Href Hsafe. unfold on_message.
  unfold bind at 1. unfold emit at 1.
  fold (extend w [EvProcessCommands (message_id message)]).
  rewrite Hbot, Href, Z.eqb_refl. unfold bind. rewrite Hsafe. reflexivity.
Qed.

(** X12: a user's reply to the bot whose text the gate refuses gets the
    fixed refusal in the channel and nothing else: no row is saved, no
    completion is requested, no reply is sent. *)
Theorem refused_turn_not_stored (message : Message) (w w2 : World) :
  author_bot message = false ->
  reference_author message = Some (bot_user_id env) ->
  is_content_safe env (message_content message)
    (extend w [EvProcessCommands (message_id message)]) = (false, w2) ->
  on_message env message w
  = (tt, extend w2 [EvChannelSend (message_channel message) refusal_input]) /\
  table w2 = table w.
Proof.
  intros Hbot Href Hsafe. split; [now apply on_message_refused|].
  destruct (gate_effect env (message_content message)
              (extend w [EvProcessCommands (message_id message)])) as (calls & _ & E).
  rewrite Hsafe in E. simpl in E. now subst w2.
Qed.

Lemma on_message_skips (message : Message) (w : World) :
  not_for_bot env message = true ->
  on_message env message w = (tt, extend w [EvProcessCommands (message_id message)]).
Proof.
  unfold not_for_bot, on_message, bind, emit, ret. intro H.
  destruct (author_bot message); [reflexivity|].
  destruct (reference_author message) as [a|]; [|reflexivity].
  simpl in H. apply negb_true_iff in H. now rewrite H.
Qed.

(** X13: a message written by a bot, or one that does not reply to a message
    of this bot, is handed to the command processor and otherwise ignored:
    the gate is not asked, nothing is saved and nothing is sent. *)
Theorem other_messages_ignored (message : Message) (w : World) :
  author_bot message = true \/ reference_author message <> Some (bot_user_id env) ->
  on_message env message w = (tt, extend w [EvProcessCommands (message_id message)]).
Proof.
  intro H. apply on_message_skips. unfold not_for_bot.
  destruct H as [-> | H]; [reflexivity|].
  destruct (author_bot message); [reflexivity|].
  destruct (reference_author message) as [a|]; [|reflexivity].
  simpl. apply negb_true_iff, Z.eqb_neq. congruence.
Qed.

(** X14: a completion that holds a denylisted word between ASCII
    delimiters is neither stored nor sent: the refusal takes its place in
    the assistant row and in the reply, and the moderation service is not
    asked about it. *)
Theorem denylisted_completion_replaced (message : Message) (w w2 : World) (c : text) :
  author_bot message = false ->
  reference_author message = Some (bot_user_id env) ->
  is_content_safe env (message_content message)
    (extend w [EvProcessCommands (message_id message)]) = (true, w2) ->
  OPENAI_enabled env = true ->
  let ch := message_channel message in
  let user_text := message_content message in
  let table1 :=
    History.save_message_to_history
      (current_timestamp env (events w2) (table w2)) ch (lit "user") user_text (table w2) in
  let prompt := chat_prompt (History.load_history_for_channel ch 10 table1) user_text in
  chat_completion_create env (events w2) prompt = Ok c ->
  holds_delimited_denylisted_word (strip c) ->
  let asked := events w2 ++ [EvChatCompletion prompt] in
  on_message env message w
  = (tt, {| table :=
              History.save_message_to_history
                (current_timestamp env asked table1) ch (lit "assistant")
                refusal_output table1;
            events := asked ++ [EvReply (message_id message) refusal_output] |}).
Proof.
  intros Hbot Href Hsafe Hopen ch user_text table1 prompt Hc Hbad asked.
  rewrite (on_message_accepted message w w2 Hbot Href Hsafe). cbv zeta.
  fold ch user_text. fold table1.
  unfold draft_reply. rewrite Hopen. fold prompt.
  unfold bind at 1. unfold call at 1. cbn [events table]. rewrite Hc. unfold ret at 1.
  unfold is_content_safe.
  rewrite (contains_profanity_whole_word (strip c) (delimited_whole_word _ Hbad)).
  unfold ret. reflexivity.
Qed.

(** X15: the handler only ever appends to the history and to what it has
    done: whatever the message, the table afterwards is the table before
    followed by no row or by two rows of the message's channel. *)
Theorem on_message_appends (message : Message) (w : World) :
  exists rows evs,
    snd (on_message env message w)
    = {| table := table w ++ rows; events := events w ++ evs |} /\
    (rows = [] \/ length rows = 2%nat) /\
    Forall (fun r => History.channel_id r = message_channel message) rows.
Proof.
  destruct (author_bot message) eqn:Hbot.
  { rewrite on_message_skips by (unfold not_for_bot; now rewrite Hbot).
    exists [], [EvProcessCommands (message_id message)].
    simpl. rewrite app_nil_r. auto. }
  destruct (reference_author message) as [a|] eqn:Href.
  2:{ rewrite on_message_skips by (unfold not_for_bot; now rewrite Hbot, Href).
      exists [], [EvProcessCommands (message_id message)].
      simpl. rewrite app_nil_r. auto. }
  destruct (Z.eq_dec a (bot_user_id env)) as [-> | Hne].
  2:{ rewrite on_message_skips
        by (unfold not_for_bot; rewrite Hbot, Href; simpl;
            now apply negb_true_iff, Z.eqb_neq).
      exists [], [EvProcessCommands (message_id message)].
      simpl. rewrite app_nil_r. auto. }
  destruct (gate_effect env (message_content message)
              (extend w [EvProcessCommands (message_id message)])) as (c1 & _ & E1).
  destruct (is_content_safe env (message_content message)
              (extend w [EvProcessCommands (message_id message)])) as [safe w2] eqn:Hsafe.
  simpl in E1. subst w2. destruct safe.
  - rewrite (on_message_accepted message w _ Hbot Href Hsafe). cbv zeta.
    cbn [events table extend].
    match goal with |- context [draft_reply env ?h ?t ?w3] =>
      destruct (draft_effect env h t w3) as (c2 & _ & E2);
      destruct (draft_reply env h t w3) as [draft w4] end.
    simpl in E2. subst w4.
    match goal with |- context [is_content_safe env ?t ?w4] =>
      destruct (gate_effect env t w4) as (c3 & _ & E3);
      destruct (is_content_safe env t w4) as [safe_out w5] end.
    simpl in E3. subst w5. cbn [snd events table extend].
    unfold History.save_message_to_history. rewrite <- !app_assoc. cbn [app].
    eexists _, _. split; [reflexivity|]. split; [now right|].
    repeat constructor.
  - rewrite (on_message_refused message w _ Hbot Href Hsafe).
    unfold extend. cbn [snd events table]. rewrite <- !app_assoc.
    eexists [], _. rewrite app_nil_r. split; [reflexivity|]. auto.
Qed.

End Turn.

Lemma completion_request_repeats_user_text_witness :
  author_bot Samples.human_reply = false /\
  reference_author Samples.human_reply = Some (bot_user_id Samples.env_outage) /\
  is_content_safe Samples.env_outage (lit "hello")
    (extend Samples.world0 [EvProcessCommands 1001]) = (true, Samples.asked_hello) /\
  OPENAI_enabled Samples.env_outage = true /\
  (forall x, In x (table Samples.asked_hello) -> History.channel_id x = 5 ->
     History.created_at x
     < current_timestamp Samples.env_outage (events Samples.asked_hello) (table Samples.asked_hello)) /\
  exists earlier,
    In (EvChatCompletion (earlier ++ [(lit "user", lit "hello"); (lit "user", lit "hello")]))
       (events (snd (on_message Samples.env_outage Samples.human_reply Samples.world0))).
Proof.
  assert (Hc : forall x, In x (table Samples.asked_hello) -> History.channel_id x = 5 ->
     History.created_at x
     < current_timestamp Samples.env_outage (events Samples.asked_hello) (table Samples.asked_hello))
    by (intros x []).
  split; [reflexivity|]. split; [reflexivity|]. split; [reflexivity|].
  split; [reflexivity|]. split; [exact Hc|].
  exact (completion_request_repeats_user_text Samples.env_outage Samples.human_reply
           Samples.world0 Samples.asked_hello eq_refl eq_refl eq_refl eq_refl Hc).
Defined.

Lemma refused_turn_not_stored_witness :
  author_bot Samples.rude_reply = false /\
  reference_author Samples.rude_reply = Some (bot_user_id Samples.env_offline) /\
  is_content_safe Samples.env_offline (lit "Badword1!")
    (extend Samples.world0 [EvProcessCommands 1003])
  = (false, extend Samples.world0 [EvProcessCommands 1003]) /\
  on_message Samples.env_offline Samples.rude_reply Samples.world0
  = (tt, {| table := [];
            events := [EvProcessCommands 1003; EvChannelSend 5 refusal_input] |}).
Proof.
  split; [reflexivity|]. split; [reflexivity|]. split; [reflexivity|].
  exact (proj1 (refused_turn_not_stored Samples.env_offline Samples.rude_reply
                  Samples.world0 (extend Samples.world0 [EvProcessCommands 1003])
                  eq_refl eq_refl eq_refl)).
Defined.

Lemma other_messages_ignored_witness :
  (author_bot Samples.bot_reply = true \/
   reference_author Samples.bot_reply <> Some (bot_user_id Samples.env_outage)) /\
  on_message Samples.env_outage Samples.bot_reply Samples.world0
  = (tt, {| table := []; events := [EvProcessCommands 1002] |}).
Proof.
  assert (H : author_bot Samples.bot_reply = true \/
              reference_author Samples.bot_reply <> Some (bot_user_id Samples.env_outage))
    by (left; reflexivity).
  split; [exact H|].
  exact (other_messages_ignored Samples.env_outage Samples.bot_reply Samples.world0 H).
Defined.

Lemma denylisted_completion_replaced_witness :
  author_bot Samples.human_reply = false /\
  reference_author Samples.human_reply = Some (bot_user_id Samples.env_rude) /\
  is_content_safe Samples.env_rude (lit "hello")
    (extend Samples.world0 [EvProcessCommands 1001]) = (true, Samples.asked_hello) /\
  OPENAI_enabled Samples.env_rude = true /\
  holds_delimited_denylisted_word (strip (lit " you badword2 ")) /\
  snd (on_message Samples.env_rude Samples.human_reply Samples.world0)
  = {| table := [ Samples.row 5 "user" "hello" 1700000000;
                  {| History.channel_id := 5;
                     History.role := lit "assistant";
                     History.content := refusal_output;
                     History.created_at := 1700000000 |} ];
       events := [ EvProcessCommands 1001;
                   EvModeration (lit "hello");
                   EvChatCompletion
                     [ (lit "system", system_prompt); (lit "user", lit "hello");
                       (lit "user", lit "hello") ];
                   EvReply 1001 refusal_output ] |}.
Proof.
  assert (Hb : holds_delimited_denylisted_word (strip (lit " you badword2 "))).
  { exists (lit "badword2"), (lit "you "), (lit "badword2"), [].
    repeat split. right. now left. }
  split; [reflexivity|]. split; [reflexivity|]. split; [reflexivity|].
  split; [reflexivity|]. split; [exact Hb|].
  exact (f_equal snd
           (denylisted_completion_replaced Samples.env_rude Samples.human_reply
              Samples.world0 Samples.asked_hello (lit " you badword2 ")
              eq_refl eq_refl eq_refl eq_refl eq_refl Hb)).
Defined.

End TurnMore.

(** ** Identifier resolution *)

Module ResolverMore.

Import TextFacts Bot BotFacts Notions.
Local Open Scope Z_scope.

Lemma first_non_bot_skips bots m rest :
  forallb author_bot bots = true -> author_bot m = false ->
  first_non_bot (bots ++ m :: rest) = Some m.
Proof.
  intros Hb Hm. induction bots as [|b bots IH]; simpl in *.
  - now rewrite Hm.
  - apply andb_true_iff in Hb as [Hb Hbs]. rewrite Hb. simpl. now apply IH.
Qed.

Lemma first_non_bot_none ms :
  forallb author_bot ms = true -> first_non_bot ms = None.
Proof.
  induction ms as [|b ms IH]; [reflexivity|]. simpl. intro H.
  apply andb_true_iff in H as [Hb Hbs]. rewrite Hb. simpl. now apply IH.
Qed.

Lemma absent_last_resort env i identifier w :
  absent identifier ->
  fetch_message_from_identifier env i identifier w = last_resort env i w.
Proof. intros [-> | ->]; reflexivity. Qed.

(** X16: without an identifier (none given, or the empty string) the target
    is the newest of the channel's last ten messages that no bot wrote: the
    bot messages before it are skipped, and only the channel's history is
    asked for. *)
Theorem missing_identifier_skips_bots
    (env : Env) (i : Interaction) (identifier : option text) (w : World)
    (bots rest : list Message) (m : Message) :
  absent identifier ->
  channel_history env (events w) (interaction_channel i) 10 = Ok (bots ++ m :: rest) ->
  forallb author_bot bots = true ->
  author_bot m = false ->
  fetch_message_from_identifier env i identifier w
  = (Some m, extend w [EvChannelHistory (interaction_channel i) 10]).
Proof.
  intros Ha Hh Hb Hm. rewrite (absent_last_resort env i identifier w Ha).
  unfold last_resort, bind, call, ret. rewrite Hh.
  now rewrite (first_non_bot_skips bots m rest Hb Hm).
Qed.

(** X17: without an identifier, nothing is found when the history request
    raises or when every message it returns was written by a bot (none at
    all among them); the failure is not passed on. *)
Theorem missing_identifier_not_found
    (env : Env) (i : Interaction) (identifier : option text) (w : World) :
  absent identifier ->
  match channel_history env (events w) (interaction_channel i) 10 with
  | Ok ms => forallb author_bot ms = true
  | Raise _ => True
  end ->
  fetch_message_from_identifier env i identifier w
  = (None, extend w [EvChannelHistory (interaction_channel i) 10]).
Proof.
  intros Ha Hh. rewrite (absent_last_resort env i identifier w Ha).
  unfold last_resort, bind, call, ret.
  destruct (channel_history env (events w) (interaction_channel i) 10) as [ms|e];
    [now rewrite (first_non_bot_none ms Hh) | reflexivity].
Qed.

(** *** What the resolver does to the world *)

Lemma last_resort_effect env i w :
  snd (last_resort env i w) = extend w [EvChannelHistory (interaction_channel i) 10].
Proof.
  unfold last_resort, bind, call, ret.
  destruct (channel_history env (events w) (interaction_channel i) 10); reflexivity.
Qed.

Lemma extend_extend w a b : extend (extend w a) b = extend w (a ++ b).
Proof. unfold extend. simpl. now rewrite app_assoc. Qed.

Lemma fetch_linked_effect env i ch_id msg_id w :
  exists evs, snd (fetch_linked env i ch_id msg_id w) = extend w evs /\
              Forall lookup evs /\ (length evs <= 4)%nat.
Proof.
  unfold fetch_linked.
  unfold bind at 1. unfold call at 1.
  fold (extend w [EvGetChannel ch_id]).
  destruct (guild_get_channel env (events w) ch_id) as [[ch|]|e].
  - unfold bind at 1. unfold ret at 1. unfold bind at 1. unfold call at 1.
    fold (extend (extend w [EvGetChannel ch_id]) [EvFetchMessage ch msg_id]).
    destruct (channel_fetch_message env _ ch msg_id).
    + unfold ret. simpl snd. rewrite extend_extend.
      eexists. split; [reflexivity|]. split; [repeat constructor | simpl; lia].
    + rewrite last_resort_effect, !extend_extend.
      eexists. split; [reflexivity|]. split; [repeat constructor | simpl; lia].
  - unfold bind at 1. unfold call at 1.
    fold (extend (extend w [EvGetChannel ch_id]) [EvFetchChannel ch_id]).
    destruct (client_fetch_channel env _ ch_id) as [ch|e].
    + unfold bind at 1. unfold call at 1.
      match goal with |- context [channel_fetch_message env ?evs ch ?id] =>
        destruct (channel_fetch_message env evs ch id) end.
      * unfold ret. simpl snd.
        exists [EvGetChannel ch_id; EvFetchChannel ch_id; EvFetchMessage ch msg_id].
        split; [|split; [repeat constructor | simpl; lia]].
        unfold extend. simpl. now rewrite <- !app_assoc.
      * rewrite last_resort_effect.
        exists [EvGetChannel ch_id; EvFetchChannel ch_id; EvFetchMessage ch msg_id;
                EvChannelHistory (interaction_channel i) 10].
        split; [|split; [repeat constructor | simpl; lia]].
        unfold extend. simpl. now rewrite <- !app_assoc.
    + rewrite last_resort_effect, !extend_extend.
      eexists. split; [reflexivity|]. split; [repeat constructor | simpl; lia].
  - rewrite last_resort_effect, extend_extend.
    eexists. split; [reflexivity|]. split; [repeat constructor | simpl; lia].
Qed.

Lemma last_resort_lookup env i w :
  exists evs, snd (last_resort env i w) = extend w evs /\
              Forall lookup evs /\ (length evs <= 4)%nat.
Proof.
  exists [EvChannelHistory (interaction_channel i) 10].
  rewrite last_resort_effect. repeat split; [repeat constructor | simpl; lia].
Qed.

Lemma resolve_by_link_effect env i identifier w :
  exists evs, snd (resolve_by_link env i identifier w) = extend w evs /\
              Forall lookup evs /\ (length evs <= 4)%nat.
Proof.
  unfold resolve_by_link.
  destruct (search_link identifier) as [[[g1 g2] g3]|]; [|apply last_resort_lookup].
  destruct (py_int g2) as [ch_id|]; [|apply last_resort_lookup].
  destruct (py_int g3) as [msg_id|]; [|apply last_resort_lookup].
  apply fetch_linked_effect.
Qed.

Lemma resolver_effect
    (env : Env) (i : Interaction) (identifier : option text) (w : World) :
  exists evs,
    snd (fetch_message_from_identifier env i identifier w) = extend w evs /\
    Forall lookup evs /\ (length evs <= 4)%nat.
Proof.
  unfold fetch_message_from_identifier.
  destruct identifier as [[|c r]|]; [apply last_resort_lookup | | apply last_resort_lookup].
  destruct (parse_link_tail (c :: r)); [|apply last_resort_lookup].
  destruct (str_isdigit (c :: r)) eqn:Hd; [|apply resolve_by_link_effect].
  destruct (py_int (c :: r)) as [id|]; [|apply resolve_by_link_effect].
  unfold bind at 1. unfold call at 1.
  fold (extend w [EvFetchMessage (interaction_channel i) id]).
  destruct (channel_fetch_message env (events w) _ _).
  - unfold ret. simpl snd. eexists. split; [reflexivity|].
    split; [repeat constructor | simpl; lia].
  - unfold resolve_by_link.
    rewrite (search_link_digits (c :: r) (proj2 (str_isdigit_inv (c :: r) Hd))).
    rewrite last_resort_effect, extend_extend.
    eexists. split; [reflexivity|]. split; [repeat constructor | simpl; lia].
Qed.

(** X18: whatever the identifier and whatever the platform answers, the
    resolver only looks things up: it leaves the history table alone, sends
    nothing, and makes at most four requests. *)
Theorem resolver_only_looks_up
    (env : Env) (i : Interaction) (identifier : option text) (w : World) :
  let w' := snd (fetch_message_from_identifier env i identifier w) in
  table w' = table w /\
  exists evs,
    events w' = events w ++ evs /\
    Forall lookup evs /\ (length evs <= 4)%nat.
Proof.
  intro w'. subst w'.
  destruct (resolver_effect env i identifier w) as (evs & E & Hl & Hn).
  rewrite E. split; [reflexivity|]. now exists evs.
Qed.

(** *** Links *)

Lemma take_digits_stop g c rest :
  forallb isdigit g = true -> isdigit c = false ->
  take_digits (g ++ c :: rest) = (g, c :: rest).
Proof.
  intros Hg Hc. induction g as [|d g IH]; simpl in *.
  - now rewrite Hc.
  - apply andb_true_iff in Hg as [Hd Hg]. now rewrite Hd, (IH Hg).
Qed.

Lemma take_digits_all g : forallb isdigit g = true -> take_digits g = (g, []).
Proof.
  intro Hg. induction g as [|d g IH]; simpl in *; [reflexivity|].
  apply andb_true_iff in Hg as [Hd Hg]. now rewrite Hd, (IH Hg).
Qed.

Lemma match_link_at_groups g c m :
  str_isdigit g = true -> str_isdigit c = true -> str_isdigit m = true ->
  match_link_at (lit "channels/" ++ g ++ "/"%char :: c ++ "/"%char :: m)
  = Some (g, c, m).
Proof.
  intros Hg Hc Hm.
  destruct (str_isdigit_inv g Hg) as [Ng Dg].
  destruct (str_isdigit_inv c Hc) as [Nc Dc].
  destruct (str_isdigit_inv m Hm) as [Nm Dm].
  unfold match_link_at. rewrite strip_prefix_app.
  unfold digits_then.
  rewrite (take_digits_stop g "/"%char _ Dg eq_refl).
  destruct g as [|g0 g']; [congruence|].
  rewrite (take_digits_stop c "/"%char _ Dc eq_refl).
  destruct c as [|c0 c']; [congruence|].
  rewrite (take_digits_all m Dm).
  destruct m as [|m0 m']; [congruence|]. reflexivity.
Qed.

Lemma search_link_here l x : match_link_at l = Some x -> search_link l = Some x.
Proof. intro H. destruct l; cbn [search_link]; now rewrite H. Qed.

Lemma search_link_message_link g c m :
  str_isdigit g = true -> str_isdigit c = true -> str_isdigit m = true ->
  search_link (message_link g c m) = Some (g, c, m).
Proof.
  intros Hg Hc Hm. unfold message_link.
  change (lit "https://discord.com/channels/")
    with (lit "https://discord.com/" ++ lit "channels/").
  rewrite <- app_assoc.
  pose proof (match_link_at_groups g c m Hg Hc Hm) as H.
  set (tail := lit "channels/" ++ g ++ "/"%char :: c ++ "/"%char :: m) in *.
  assert (Ht : search_link tail = Some (g, c, m)) by now apply search_link_here.
  assert (Hc' : exists r, tail = "c"%char :: "h"%char :: r).
  { subst tail. eexists. reflexivity. }
  destruct Hc' as [r Er]. rewrite Er in *. clear H.
  cbv [lit list_ascii_of_string app].
  repeat (cbn [search_link];
          match goal with
          | |- context [match_link_at (?a :: ?l)] =>
              replace (match_link_at (a :: l)) with (@None (text * text * text))
                by reflexivity
          end).
  exact Ht.
Qed.

Lemma match_link_tail_at_groups g c m :
  str_isdigit g = true -> str_isdigit c = true -> str_isdigit m = true ->
  match_link_tail_at (lit "/channels/" ++ g ++ "/"%char :: c ++ "/"%char :: m)
  = Some c.
Proof.
  intros Hg Hc Hm.
  destruct (str_isdigit_inv g Hg) as [Ng Dg].
  destruct (str_isdigit_inv c Hc) as [Nc Dc].
  destruct (str_isdigit_inv m Hm) as [Nm Dm].
  unfold match_link_tail_at. rewrite strip_prefix_app.
  unfold digits_then.
  rewrite (take_digits_stop g "/"%char _ Dg eq_refl).
  destruct g as [|g0 g']; [congruence|].
  rewrite (take_digits_stop c "/"%char _ Dc eq_refl).
  destruct c as [|c0 c']; [congruence|].
  rewrite (take_digits_all m Dm).
  destruct m as [|m0 m']; [congruence|]. reflexivity.
Qed.

Lemma search_link_tail_here l x :
  match_link_tail_at l = Some x -> search_link_tail l = Some x.
Proof. intro H. destruct l; cbn [search_link_tail]; now rewrite H. Qed.

Lemma search_link_tail_message_link g c m :
  str_isdigit g = true -> str_isdigit c = true -> str_isdigit m = true ->
  search_link_tail (message_link g c m) = Some c.
Proof.
  intros Hg Hc Hm. unfold message_link.
  change (lit "https://discord.com/channels/")
    with (lit "https://discord.com" ++ lit "/channels/").
  rewrite <- app_assoc.
  pose proof (match_link_tail_at_groups g c m Hg Hc Hm) as H.
  set (tail := lit "/channels/" ++ g ++ "/"%char :: c ++ "/"%char :: m) in *.
  assert (Ht : search_link_tail tail = Some c) by now apply search_link_tail_here.
  assert (Hc' : exists r, tail = "/"%char :: "c"%char :: r).
  { subst tail. eexists. reflexivity. }
  destruct Hc' as [r Er]. rewrite Er in *. clear H.
  cbv [lit list_ascii_of_string app].
  repeat (cbn [search_link_tail];
          match goal with
          | |- context [match_link_tail_at (?a :: ?l)] =>
              replace (match_link_tail_at (a :: l)) with (@None text)
                by reflexivity
          end).
  exact Ht.
Qed.

(** X19: a message link is resolved through its channel.  For a link whose
    three groups are digits, the channel and message groups of no more than
    4300 digits, the guild's cache is asked for the channel of the second
    group first; with the channel in the cache and the message of the third
    group found in it, that message is the result, whatever guild the link
    names. *)
Theorem link_resolves_in_its_channel
    (env : Env) (i : Interaction) (g c m : text) (w : World)
    (channel : Z) (msg : Message) :
  str_isdigit g = true -> str_isdigit c = true -> str_isdigit m = true ->
  (length c <= int_max_str_digits)%nat ->
  (length m <= int_max_str_digits)%nat ->
  guild_get_channel env (events w) (int_of_digits c) = Ok (Some channel) ->
  channel_fetch_message env (events w ++ [EvGetChannel (int_of_digits c)])
    channel (int_of_digits m) = Ok msg ->
  fetch_message_from_identifier env i (Some (message_link g c m)) w
  = (Some msg, extend w [ EvGetChannel (int_of_digits c);
                          EvFetchMessage channel (int_of_digits m) ]).
Proof.
  intros Hg Hc Hm Lc Lm Hcache Hfetch.
  unfold fetch_message_from_identifier.
  change (message_link g c m) with ("h"%char :: tl (message_link g c m)).
  cbv iota. change (str_isdigit ("h"%char :: tl (message_link g c m))) with false.
  change ("h"%char :: tl (message_link g c m)) with (message_link g c m).
  unfold parse_link_tail.
  rewrite (search_link_tail_message_link g c m Hg Hc Hm), (py_int_short c Lc).
  cbv iota.
  unfold resolve_by_link. rewrite (search_link_message_link g c m Hg Hc Hm).
  rewrite (py_int_short c Lc), (py_int_short m Lm).
  unfold fetch_linked.
  unfold bind at 1. unfold call at 1. rewrite Hcache.
  unfold bind at 1. unfold ret at 1. unfold bind at 1. unfold call at 1.
  cbn [events table]. rewrite Hfetch. unfold ret, extend. cbn [events table].
  now rewrite <- app_assoc.
Qed.


Lemma missing_identifier_skips_bots_witness :
  absent (Some []) /\
  channel_history Samples.env_linked (events Samples.world0) 5 10
    = Ok ([Samples.bot_answer] ++ Samples.user_message :: []) /\
  forallb author_bot [Samples.bot_answer] = true /\
  author_bot Samples.user_message = false /\
  fetch_message_from_identifier Samples.env_linked Samples.moderator (Some [])
    Samples.world0
  = (Some Samples.user_message, extend Samples.world0 [EvChannelHistory 5 10]).
Proof.
  assert (Ha : absent (Some [])) by (right; reflexivity).
  split; [exact Ha|]. split; [reflexivity|]. split; [reflexivity|].
  split; [reflexivity|].
  exact (missing_identifier_skips_bots Samples.env_linked Samples.moderator (Some [])
           Samples.world0 [Samples.bot_answer] [] Samples.user_message
           Ha eq_refl eq_refl eq_refl).
Defined.

Lemma missing_identifier_not_found_witness :
  absent None /\
  channel_history Samples.env_bots_only (events Samples.world0) 5 10
    = Ok [Samples.bot_answer] /\
  fetch_message_from_identifier Samples.env_bots_only Samples.moderator None
    Samples.world0
  = (None, extend Samples.world0 [EvChannelHistory 5 10]).
Proof.
  assert (Ha : absent None) by (left; reflexivity).
  split; [exact Ha|]. split; [reflexivity|].
  exact (missing_identifier_not_found Samples.env_bots_only Samples.moderator None
           Samples.world0 Ha eq_refl).
Defined.

Lemma link_resolves_in_its_channel_witness :
  str_isdigit (lit "1") = true /\ str_isdigit (lit "22") = true /\
  str_isdigit (lit "333") = true /\
  (length (lit "22") <= int_max_str_digits)%nat /\
  (length (lit "333") <= int_max_str_digits)%nat /\
  message_link (lit "1") (lit "22") (lit "333")
    = lit "https://discord.com/channels/1/22/333" /\
  fetch_message_from_identifier Samples.env_linked Samples.moderator
    (Some (lit "https://discord.com/channels/1/22/333")) Samples.world0
  = (Some Samples.user_message,
     extend Samples.world0 [EvGetChannel 22; EvFetchMessage 22 333]).
Proof.
  assert (Lc : (length (lit "22") <= int_max_str_digits)%nat).
  { apply Nat.leb_le. reflexivity. }
  assert (Lm : (length (lit "333") <= int_max_str_digits)%nat).
  { apply Nat.leb_le. reflexivity. }
  split; [reflexivity|]. split; [reflexivity|]. split; [reflexivity|].
  split; [exact Lc|]. split; [exact Lm|].
  split; [reflexivity|].
  exact (link_resolves_in_its_channel Samples.env_linked Samples.moderator
           (lit "1") (lit "22") (lit "333") Samples.world0 22 Samples.user_message
           eq_refl eq_refl eq_refl Lc Lm eq_refl eq_refl).
Defined.

End ResolverMore.

(** ** Moderation commands *)

Module ModerationMore.

Import Bot BotFacts Notions.
Local Open Scope Z_scope.

Lemma may_kick_guard env i :
  may_kick env i ->
  negb (kick_members i) && negb (user_id i =? BOT_OWNER_ID env) = false.
Proof.
  intros [H | H]; [now rewrite H|].
  apply Z.eqb_eq in H. rewrite H. apply andb_false_r.
Qed.

(** X20: a kick by a user with the kick permission, or by the owner without
    it, is announced first and attempted once; the channel is then told of
    the kick when the platform accepts it, and of the failure with the
    platform's reason when it does not. *)
Theorem kick_announced_then_attempted
    (env : Env) (i : Interaction) (member : Member) (reason : option text) (w : World) :
  may_kick env i ->
  let confirm := make_chatgpt_confirmation (lit "kick") (display_name member) reason in
  let before := events w ++ [EvRespond confirm false; EvSleep 1] in
  let report :=
    match member_kick env before member reason with
    | Ok _ => mention member ++ lit " has been kicked. Reason: " ++
              py_or reason (lit "No reason provided.")
    | Raise e => lit "Failed to kick " ++ display_name member ++ lit ": " ++ e
    end in
  cmd_kick env i member reason w
  = (tt, extend w [ EvRespond confirm false; EvSleep 1;
                    EvKick (member_id member) reason;
                    EvChannelSend (interaction_channel i) report ]).
Proof.
  intros Ha confirm before report. unfold cmd_kick.
  rewrite (may_kick_guard env i Ha).
  unfold bind, emit, call, extend. cbn [events table]. subst report before confirm.
  rewrite <- !app_assoc. cbn [app].
  destruct (member_kick env _ member reason);
    cbn [events table]; rewrite <- !app_assoc; reflexivity.
Qed.

(** X21: the permission check of the timeout command comes before the range
    check: a user without the moderate permission who is not the owner gets
    the ephemeral permission error and nothing else, whatever the minutes,
    in range or not. *)
Theorem timeout_without_permission_denied
    (env : Env) (i : Interaction) (member : Member) (minutes : Z)
    (reason : option text) (w : World) :
  moderate_members i = false ->
  user_id i <> BOT_OWNER_ID env ->
  cmd_timeout env i member minutes reason w
  = (tt, extend w [EvRespond no_permission_timeout true]).
Proof.
  intros Hp Ho. unfold cmd_timeout. rewrite Hp.
  apply Z.eqb_neq in Ho. rewrite Ho. reflexivity.
Qed.

(** X22: a timeout of 1 to 40320 minutes by an authorized user is announced
    and then set once, to expire [60 * minutes] seconds after the time read
    once the announcement is out; the bounds 1 and 40320 are accepted. *)
Theorem timeout_in_range_sets_expiry
    (env : Env) (i : Interaction) (member : Member) (minutes : Z)
    (reason : option text) (w : World) :
  may_timeout env i ->
  1 <= minutes <= 40320 ->
  let confirm :=
    make_chatgpt_confirmation
      (lit "timeout for " ++ str_of_Z minutes ++ lit " minutes")
      (display_name member) reason in
  let before := events w ++ [EvRespond confirm false; EvSleep 1] in
  let until := utcnow env before + 60 * minutes in
  let report :=
    match member_timeout env before member (Some until) reason with
    | Ok _ => mention member ++ lit " has been timed out for " ++
              str_of_Z minutes ++ lit " minutes. Reason: " ++
              py_or reason (lit "No reason provided.")
    | Raise e => timeout_failed_report member e
    end in
  cmd_timeout env i member minutes reason w
  = (tt, extend w [ EvRespond confirm false; EvSleep 1;
                    EvTimeout (member_id member) (Some until) reason;
                    EvChannelSend (interaction_channel i) report ]).
Proof.
  intros Ha Hr confirm before until report. unfold cmd_timeout.
  rewrite (may_timeout_guard env i Ha).
  replace (minutes <? 0) with false by (symmetry; apply Z.ltb_ge; lia).
  replace (minutes >? 40320) with false
    by (symmetry; rewrite Z.gtb_ltb; apply Z.ltb_ge; lia).
  replace (minutes =? 0) with false by (symmetry; apply Z.eqb_neq; lia).
  cbn [orb]. unfold bind, emit, call, extend. cbn [events table].
  subst report until before confirm.
  rewrite <- !app_assoc. cbn [app].
  destruct (member_timeout env _ member _ reason);
    unfold timeout_failed_report;
    cbn [events table]; rewrite <- !app_assoc; reflexivity.
Qed.

Lemma kick_announced_then_attempted_witness :
  may_kick Samples.env_offline Samples.moderator /\
  cmd_kick Samples.env_offline Samples.moderator Samples.bob (Some (lit "spam"))
    Samples.world0
  = (tt, extend Samples.world0
       [ EvRespond (lit "Sure! I’ll kick Bob immediately for **spam**.") false;
         EvSleep 1;
         EvKick 11 (Some (lit "spam"));
         EvChannelSend 5 (lit "<@11> has been kicked. Reason: spam") ]).
Proof.
  assert (Ha : may_kick Samples.env_offline Samples.moderator) by (left; reflexivity).
  split; [exact Ha|].
  exact (kick_announced_then_attempted Samples.env_offline Samples.moderator
           Samples.bob (Some (lit "spam")) Samples.world0 Ha).
Defined.

Lemma timeout_without_permission_denied_witness :
  moderate_members Samples.guest = false /\
  user_id Samples.guest <> BOT_OWNER_ID Samples.env_offline /\
  cmd_timeout Samples.env_offline Samples.guest Samples.bob 50000 None Samples.world0
  = (tt, extend Samples.world0 [EvRespond no_permission_timeout true]).
Proof.
  assert (Ho : user_id Samples.guest <> BOT_OWNER_ID Samples.env_offline) by discriminate.
  split; [reflexivity|]. split; [exact Ho|].
  exact (timeout_without_permission_denied Samples.env_offline Samples.guest
           Samples.bob 50000 None Samples.world0 eq_refl Ho).
Defined.

Lemma timeout_in_range_sets_expiry_witness :
  may_timeout Samples.env_offline Samples.moderator /\
  1 <= 40320 <= 40320 /\
  cmd_timeout Samples.env_offline Samples.moderator Samples.bob 40320 None Samples.world0
  = (tt, extend Samples.world0
       [ EvRespond (lit "Sure! I’ll timeout for 40320 minutes Bob immediately for **no reason provided**.") false;
         EvSleep 1;
         EvTimeout 11 (Some 1702419200) None;
         EvChannelSend 5
           (lit "<@11> has been timed out for 40320 minutes. Reason: No reason provided.") ]).
Proof.
  assert (Ha : may_timeout Samples.env_offline Samples.moderator) by (left; reflexivity).
  assert (Hr : 1 <= 40320 <= 40320) by lia.
  split; [exact Ha|]. split; [exact Hr|].
  exact (timeout_in_range_sets_expiry Samples.env_offline Samples.moderator
           Samples.bob 40320 None Samples.world0 Ha Hr).
Defined.

End ModerationMore.

(** ** The edit commands and the ban *)

Module CommandsMore.

Import Bot BotFacts Commands Notions.
Local Open Scope Z_scope.

Lemma skipn_added {A : Type} (l added : list A) : skipn (length l) (l ++ added) = added.
Proof. induction l as [|a l IH]; [reflexivity | exact IH]. Qed.

Lemma lift_effect {A : Type} (m : M A) (s : Session) (a : A) (evs : list Event) :
  m (world s) = (a, extend (world s) evs) ->
  lift m s = (a, {| world := extend (world s) evs; log := log s ++ map Did evs |}).
Proof.
  intro H. unfold lift. rewrite H. cbn [extend events]. now rewrite skipn_added.
Qed.

Lemma lift_emit (e : Event) (s : Session) :
  lift (emit e) s = (tt, {| world := extend (world s) [e]; log := log s ++ [Did e] |}).
Proof. apply (lift_effect (emit e) s tt [e]). reflexivity. Qed.

Section Edit.

Context (setup : Setup).

(** X23: a context-menu edit of a message written by a bot, terse or
    article, is turned down at once: after the deferral the only thing done
    is the follow-up "I won't edit bot messages."; the gate is not asked and
    nothing is posted. *)
Theorem context_edit_refuses_bot_message
    (article : bool) (inv : Invocation) (message : Message) (s : Session) :
  author_bot message = true ->
  context_command setup article inv message s
  = (tt, {| world := world s; log := log s ++ [Defer true; Followup wont_edit] |}).
Proof.
  intro Hb. destruct article; cbn [context_command];
    unfold context_edit, context_edit_article, cbind, act; rewrite Hb;
    cbn [world log]; now rewrite <- app_assoc.
Qed.

(** X24: a slash edit whose target cannot be found, terse or article,
    answers with its "couldn't find" follow-up after the resolver's lookups
    and does nothing else. *)
Theorem slash_edit_reports_missing_target
    (article : bool) (inv : Invocation) (identifier : option text) (s : Session)
    (evs : list Event) :
  fetch_message_from_identifier (base_env setup) (interaction inv) identifier (world s)
  = (None, extend (world s) evs) ->
  slash_command setup article inv identifier s
  = (tt, {| world := extend (world s) evs;
            log := log s ++ Defer true :: map Did evs ++ [Followup (not_found article)] |}).
Proof.
  intro Hf. destruct article; cbn [slash_command not_found];
    unfold slash_edit, slash_edit_article; unfold cbind at 1; unfold act at 1;
    unfold cbind at 1;
    rewrite (lift_effect _ {| world := world s; log := log s ++ [Defer true] |}
               None evs Hf);
    unfold act; cbn [world log]; now rewrite <- !app_assoc.
Qed.

(** X25: a slash edit whose target holds a denylisted word between ASCII
    delimiters, terse or article, answers that the target cannot be edited;
    the text is not repaired, nothing is posted and the moderation service
    is not asked. *)
Theorem slash_edit_refuses_denylisted_target
    (article : bool) (inv : Invocation) (identifier : option text) (s : Session)
    (evs : list Event) (msg : Message) :
  fetch_message_from_identifier (base_env setup) (interaction inv) identifier (world s)
  = (Some msg, extend (world s) evs) ->
  author_bot msg = false ->
  holds_delimited_denylisted_word (message_content msg) ->
  slash_command setup article inv identifier s
  = (tt, {| world := extend (world s) evs;
            log := log s ++ Defer true :: map Did evs ++ [Followup unsafe_target] |}).
Proof.
  intros Hf Hb Hbad.
  pose proof (contains_profanity_whole_word _ (delimited_whole_word _ Hbad)) as Hp.
  destruct article; cbn [slash_command];
    unfold slash_edit, slash_edit_article; unfold cbind at 1; unfold act at 1;
    unfold cbind at 1;
    rewrite (lift_effect _ {| world := world s; log := log s ++ [Defer true] |}
               (Some msg) evs Hf);
    rewrite Hb; unfold cbind at 1;
    unfold lift, is_content_safe; rewrite Hp; unfold ret; cbn [world log negb];
    rewrite skipn_all; unfold act; cbn [world log map];
    now rewrite app_nil_r, <- !app_assoc.
Qed.

(** X26: a context-menu edit of a user's message that passes the gate
    acknowledges and then posts the repaired text once, under the
    requester's name.  The article command differs in its wording only: the
    repaired text is the same. *)
Theorem context_edit_posts_repaired_text
    (article : bool) (inv : Invocation) (message : Message) (s : Session)
    (calls : list Event) :
  author_bot message = false ->
  is_content_safe (base_env setup) (message_content message) (world s)
  = (true, extend (world s) calls) ->
  let repaired :=
    Repair.run_language_tool_check (language_tool setup) (message_content message) false in
  let sent :=
    EvChannelSend (interaction_channel (interaction inv))
      (post article (user_display_name inv) repaired) in
  context_command setup article inv message s
  = (tt, {| world := extend (world s) (calls ++ [sent]);
            log := log s ++ Defer true :: map Did calls ++
                   [Followup (acknowledgement article); Did sent] |}).
Proof.
  intros Hb Hs repaired sent.
  destruct article; cbn [context_command acknowledgement post] in *;
    unfold context_edit, context_edit_article; unfold cbind at 1; unfold act at 1;
    rewrite Hb; unfold cbind at 1;
    rewrite (lift_effect _ {| world := world s; log := log s ++ [Defer true] |}
               true calls Hs);
    cbn [negb]; unfold cbind, act, channel_send; rewrite lift_emit;
    cbn [world log]; unfold extend; cbn [events table];
    rewrite <- !app_assoc; reflexivity.
Qed.

End Edit.

Section Flow.

Context (setup : Setup).

(** X27: a slash edit without an identifier, terse or article, works on the
    newest recent message that no bot wrote: it asks for the channel's
    history, passes that message's text through the gate, acknowledges and
    posts the repaired text, skipping the bot's own messages on the way. *)
Theorem slash_edit_infers_target
    (article : bool) (inv : Invocation) (identifier : option text) (s : Session)
    (bots rest : list Message) (m : Message) (calls : list Event) :
  absent identifier ->
  let ch := interaction_channel (interaction inv) in
  channel_history (base_env setup) (events (world s)) ch 10 = Ok (bots ++ m :: rest) ->
  forallb author_bot bots = true ->
  author_bot m = false ->
  let scanned := extend (world s) [EvChannelHistory ch 10] in
  is_content_safe (base_env setup) (message_content m) scanned
  = (true, extend scanned calls) ->
  let repaired :=
    Repair.run_language_tool_check (language_tool setup) (message_content m) false in
  let sent := EvChannelSend ch (post article (user_display_name inv) repaired) in
  slash_command setup article inv identifier s
  = (tt, {| world := extend (world s) (EvChannelHistory ch 10 :: calls ++ [sent]);
            log := log s ++ Defer true :: Did (EvChannelHistory ch 10) :: map Did calls ++
                   [Followup (acknowledgement article); Did sent] |}).
Proof.
  intros Ha ch Hh Hb Hm scanned Hs repaired sent.
  assert (Hf : fetch_message_from_identifier (base_env setup) (interaction inv)
                 identifier (world s)
               = (Some m, extend (world s) [EvChannelHistory ch 10])).
  { rewrite (ResolverMore.absent_last_resort _ _ identifier (world s) Ha).
    unfold last_resort, bind, call, ret. fold ch. rewrite Hh.
    now rewrite (ResolverMore.first_non_bot_skips bots m rest Hb Hm). }
  destruct article; cbn [slash_command acknowledgement post] in *;
    unfold slash_edit, slash_edit_article; unfold cbind at 1; unfold act at 1;
    unfold cbind at 1;
    rewrite (lift_effect _ {| world := world s; log := log s ++ [Defer true] |}
               (Some m) [EvChannelHistory ch 10] Hf);
    cbn [world log]; rewrite Hm; unfold cbind at 1;
    rewrite (lift_effect _
               {| world := extend (world s) [EvChannelHistory ch 10];
                  log := (log s ++ [Defer true]) ++ map Did [EvChannelHistory ch 10] |}
               true calls Hs);
    cbn [negb]; unfold cbind, act, channel_send; rewrite lift_emit;
    cbn [world log map]; unfold extend; cbn [events table];
    rewrite <- !app_assoc; reflexivity.
Qed.

Lemma filter_followup_did evs : filter is_followup (map Did evs) = [].
Proof. induction evs as [|e evs IH]; [reflexivity | exact IH]. Qed.

Lemma filter_post_lookup evs :
  Forall lookup evs -> filter is_post (map Did evs) = [].
Proof.
  induction 1 as [|e evs He _ IH]; [reflexivity|].
  destruct e; simpl in He |- *; try contradiction; exact IH.
Qed.

Lemma filter_post_service evs :
  Forall service_call evs -> filter is_post (map Did evs) = [].
Proof.
  induction 1 as [|e evs He _ IH]; [reflexivity|].
  destruct e; simpl in He |- *; try contradiction; exact IH.
Qed.

(** The part of the four edit commands that follows the choice of the
    target. *)
Lemma edit_target_once
    (refuse ack : text) (is_article : bool) (sent : text -> Event)
    (msg : Message) (s : Session) :
  (forall t, is_post (Did (sent t)) = true) ->
  let run : C unit :=
    if author_bot msg then act (Followup wont_edit)
    else
      safe <~ lift (is_content_safe (base_env setup) (message_content msg)) ;;
      if negb safe then act (Followup refuse)
      else
        act (Followup ack) ;;;;
        lift (emit (sent (Repair.run_language_tool_check (language_tool setup)
                            (message_content msg) is_article))) in
  exists evs acts,
    run s = (tt, {| world := extend (world s) evs; log := log s ++ acts |}) /\
    length (filter is_followup acts) = 1%nat /\
    (length (filter is_post acts) <= 1)%nat.
Proof.
  intros Hsent run. subst run. destruct (author_bot msg).
  { exists [], [Followup wont_edit]. unfold act, extend. rewrite app_nil_r.
    destruct s as [[tb ev] lg]. simpl. auto. }
  unfold cbind at 1.
  destruct (gate_effect (base_env setup) (message_content msg) (world s))
    as (calls & Hcalls & E).
  destruct (is_content_safe (base_env setup) (message_content msg) (world s))
    as [safe w2] eqn:Hs.
  simpl in E. subst w2. rewrite (lift_effect _ s safe calls Hs).
  destruct safe; cbn [negb].
  - unfold cbind, act. rewrite lift_emit. cbn [world log].
    eexists (calls ++ [_]), (map Did calls ++ [Followup ack; Did _]). split.
    + unfold extend. cbn [events table]. now rewrite <- !app_assoc.
    + rewrite !filter_app, filter_followup_did, (filter_post_service calls Hcalls).
      cbn [filter is_followup app length]. rewrite Hsent. cbn. auto.
  - unfold act. cbn [world log].
    exists calls, (map Did calls ++ [Followup refuse]). split.
    + now rewrite <- app_assoc.
    + rewrite !filter_app, filter_followup_did, (filter_post_service calls Hcalls).
      cbn. auto.
Qed.

(** X28: each of the four edit commands, whatever its target and whatever
    the platform and the services answer, defers first, sends exactly one
    text follow-up, posts at most one message to the channel, and leaves the
    history table as it was. *)
Theorem edit_commands_answer_once (article : bool) (inv : Invocation) (s : Session) :
  (forall message,
     exists evs acts,
       context_command setup article inv message s
       = (tt, {| world := extend (world s) evs; log := log s ++ Defer true :: acts |}) /\
       length (filter is_followup acts) = 1%nat /\
       (length (filter is_post acts) <= 1)%nat) /\
  (forall identifier,
     exists evs acts,
       slash_command setup article inv identifier s
       = (tt, {| world := extend (world s) evs; log := log s ++ Defer true :: acts |}) /\
       length (filter is_followup acts) = 1%nat /\
       (length (filter is_post acts) <= 1)%nat).
Proof.
  split.
  - intro message.
    destruct article; cbn [context_command];
      unfold context_edit, context_edit_article; unfold cbind at 1; unfold act at 1.
    + destruct (edit_target_once unsafe_message will_rewrite true
                  (fun t => EvChannelSend (interaction_channel (interaction inv))
                              (article_post (user_display_name inv) t))
                  message {| world := world s; log := log s ++ [Defer true] |}
                  (fun _ => eq_refl)) as (evs & acts & E & H1 & H2).
      exists evs, acts. unfold channel_send. rewrite E. cbn [world log].
      rewrite <- app_assoc. auto.
    + destruct (edit_target_once unsafe_message will_edit false
                  (fun t => EvChannelSend (interaction_channel (interaction inv))
                              (edited_post (user_display_name inv) t))
                  message {| world := world s; log := log s ++ [Defer true] |}
                  (fun _ => eq_refl)) as (evs & acts & E & H1 & H2).
      exists evs, acts. unfold channel_send. rewrite E. cbn [world log].
      rewrite <- app_assoc. auto.
  - intro identifier.
    destruct (ResolverMore.resolver_effect (base_env setup) (interaction inv)
                identifier (world s)) as (found & Ef & Hfound & _).
    destruct (fetch_message_from_identifier (base_env setup) (interaction inv)
                identifier (world s)) as [target w1] eqn:Hf.
    simpl in Ef. subst w1.
    destruct article; cbn [slash_command];
      unfold slash_edit, slash_edit_article; unfold cbind at 1; unfold act at 1;
      unfold cbind at 1;
      rewrite (lift_effect _ {| world := world s; log := log s ++ [Defer true] |}
                 target found Hf);
      cbn [world log];
      (destruct target as [msg|];
       [| unfold act; cbn [world log];
          eexists found, (map Did found ++ [Followup _]);
          split; [now rewrite <- !app_assoc|];
          rewrite !filter_app, filter_followup_did, (filter_post_lookup found Hfound);
          cbn; auto ]).
    + destruct (edit_target_once unsafe_target will_rewrite true
                  (fun t => EvChannelSend (interaction_channel (interaction inv))
                              (article_post (user_display_name inv) t))
                  msg {| world := extend (world s) found;
                         log := (log s ++ [Defer true]) ++ map Did found |}
                  (fun _ => eq_refl)) as (evs & acts & E & H1 & H2).
      exists (found ++ evs), (map Did found ++ acts).
      unfold channel_send. rewrite E. cbn [world log]. split.
      * unfold extend. cbn [events table]. now rewrite <- !app_assoc.
      * rewrite !filter_app, filter_followup_did, (filter_post_lookup found Hfound).
        cbn [app]. auto.
    + destruct (edit_target_once unsafe_target will_edit false
                  (fun t => EvChannelSend (interaction_channel (interaction inv))
                              (edited_post (user_display_name inv) t))
                  msg {| world := extend (world s) found;
                         log := (log s ++ [Defer true]) ++ map Did found |}
                  (fun _ => eq_refl)) as (evs & acts & E & H1 & H2).
      exists (found ++ evs), (map Did found ++ acts).
      unfold channel_send. rewrite E. cbn [world log]. split.
      * unfold extend. cbn [events table]. now rewrite <- !app_assoc.
      * rewrite !filter_app, filter_followup_did, (filter_post_lookup found Hfound).
        cbn [app]. auto.
Qed.

(** *** The ban *)

Lemma may_ban_guard inv :
  may_ban setup inv ->
  negb (ban_members (interaction inv))
  && negb (user_id (interaction inv) =? BOT_OWNER_ID (base_env setup)) = false.
Proof.
  intros [H | H]; [now rewrite H|].
  apply Z.eqb_eq in H. rewrite H. apply andb_false_r.
Qed.

(** X29: a ban by a user without the ban permission who is not the owner
    gets the ephemeral permission error and nothing else: no announcement
    and no ban. *)
Theorem ban_without_permission_denied
    (inv : Invocation) (member : Member) (reason : option text) (s : Session) :
  ban_members (interaction inv) = false ->
  user_id (interaction inv) <> BOT_OWNER_ID (base_env setup) ->
  cmd_ban setup inv member reason s
  = (tt, {| world := extend (world s) [EvRespond no_permission_ban true];
            log := log s ++ [Did (EvRespond no_permission_ban true)] |}).
Proof.
  intros Hp Ho. unfold cmd_ban. rewrite Hp.
  apply Z.eqb_neq in Ho. rewrite Ho. cbn [negb andb]. apply lift_emit.
Qed.

(** X30: a ban by a user with the ban permission, or by the owner, is
    announced first and attempted once; the channel is then told of the ban
    when the platform accepts it, and of the failure with the platform's
    reason when it does not. *)
Theorem ban_announced_then_attempted
    (inv : Invocation) (member : Member) (reason : option text) (s : Session) :
  may_ban setup inv ->
  let confirm := make_chatgpt_confirmation (lit "ban") (display_name member) reason in
  let before := log s ++ [Did (EvRespond confirm false); Did (EvSleep 1)] in
  let report :=
    match member_ban setup before member reason with
    | Ok _ => mention member ++ lit " has been banned. Reason: " ++
              py_or reason (lit "No reason provided.")
    | Raise e => lit "Failed to ban " ++ display_name member ++ lit ": " ++ e
    end in
  let sent := EvChannelSend (interaction_channel (interaction inv)) report in
  cmd_ban setup inv member reason s
  = (tt, {| world := extend (world s) [EvRespond confirm false; EvSleep 1; sent];
            log := before ++ [Ban (member_id member) reason; Did sent] |}).
Proof.
  intros Ha confirm before report sent. unfold cmd_ban.
  rewrite (may_ban_guard inv Ha).
  unfold cbind at 1. rewrite lift_emit.
  unfold cbind at 1. rewrite lift_emit.
  unfold cbind at 1. unfold ask_ban at 1. cbn [world log].
  fold confirm. rewrite <- !app_assoc. cbn [app]. fold before.
  subst sent report.
  destruct (member_ban setup before member reason);
    unfold channel_send; rewrite lift_emit; cbn [world log];
    unfold extend, before; cbn [events table]; rewrite <- !app_assoc; reflexivity.
Qed.

End Flow.


Lemma context_edit_refuses_bot_message_witness :
  author_bot Samples.bot_answer = true /\
  context_command (Samples.setup_on Samples.env_linked) true Samples.ann
    Samples.bot_answer Samples.session0
  = (tt, {| world := Samples.world0; log := [Defer true; Followup wont_edit] |}).
Proof.
  split; [reflexivity|].
  exact (context_edit_refuses_bot_message (Samples.setup_on Samples.env_linked) true
           Samples.ann Samples.bot_answer Samples.session0 eq_refl).
Defined.

Lemma slash_edit_reports_missing_target_witness :
  fetch_message_from_identifier Samples.env_bots_only Samples.moderator
    (Some (lit "999")) Samples.world0
  = (None, extend Samples.world0 [EvFetchMessage 5 999; EvChannelHistory 5 10]) /\
  slash_command (Samples.setup_on Samples.env_bots_only) false Samples.ann
    (Some (lit "999")) Samples.session0
  = (tt, {| world := extend Samples.world0 [EvFetchMessage 5 999; EvChannelHistory 5 10];
            log := [ Defer true; Did (EvFetchMessage 5 999);
                     Did (EvChannelHistory 5 10); Followup not_found_edit ] |}).
Proof.
  split; [reflexivity|].
  exact (slash_edit_reports_missing_target (Samples.setup_on Samples.env_bots_only) false
           Samples.ann (Some (lit "999")) Samples.session0
           [EvFetchMessage 5 999; EvChannelHistory 5 10] eq_refl).
Defined.

Lemma slash_edit_refuses_denylisted_target_witness :
  fetch_message_from_identifier Samples.env_rude_target Samples.moderator None
    Samples.world0
  = (Some Samples.rude_reply, extend Samples.world0 [EvChannelHistory 5 10]) /\
  author_bot Samples.rude_reply = false /\
  holds_delimited_denylisted_word (message_content Samples.rude_reply) /\
  slash_command (Samples.setup_on Samples.env_rude_target) true Samples.ann None
    Samples.session0
  = (tt, {| world := extend Samples.world0 [EvChannelHistory 5 10];
            log := [ Defer true; Did (EvChannelHistory 5 10);
                     Followup unsafe_target ] |}).
Proof.
  assert (Hb : holds_delimited_denylisted_word (message_content Samples.rude_reply)).
  { exists (lit "badword1"), [], (lit "Badword1"), (lit "!").
    repeat split. now left. }
  split; [reflexivity|]. split; [reflexivity|]. split; [exact Hb|].
  exact (slash_edit_refuses_denylisted_target (Samples.setup_on Samples.env_rude_target)
           true Samples.ann None Samples.session0 [EvChannelHistory 5 10]
           Samples.rude_reply eq_refl eq_refl Hb).
Defined.

Lemma context_edit_posts_repaired_text_witness :
  author_bot Samples.user_message = false /\
  is_content_safe Samples.env_linked (message_content Samples.user_message)
    Samples.world0 = (true, extend Samples.world0 []) /\
  context_command (Samples.setup_on Samples.env_linked) false Samples.ann
    Samples.user_message Samples.session0
  = (tt, {| world :=
              extend Samples.world0
                [EvChannelSend 5
                   (lit "**Edited (by Ann):**" ++ [nl] ++ lit "Helo wrld.it is me")];
            log := [ Defer true; Followup will_edit;
                     Did (EvChannelSend 5
                            (lit "**Edited (by Ann):**" ++ [nl] ++
                             lit "Helo wrld.it is me")) ] |}).
Proof.
  split; [reflexivity|]. split; [reflexivity|].
  exact (context_edit_posts_repaired_text (Samples.setup_on Samples.env_linked) false
           Samples.ann Samples.user_message Samples.session0 [] eq_refl eq_refl).
Defined.

Lemma slash_edit_infers_target_witness :
  absent None /\
  channel_history Samples.env_linked (events Samples.world0) 5 10
    = Ok ([Samples.bot_answer] ++ Samples.user_message :: []) /\
  forallb author_bot [Samples.bot_answer] = true /\
  author_bot Samples.user_message = false /\
  is_content_safe Samples.env_linked (message_content Samples.user_message)
    (extend Samples.world0 [EvChannelHistory 5 10])
  = (true, extend (extend Samples.world0 [EvChannelHistory 5 10]) []) /\
  slash_command (Samples.setup_on Samples.env_linked) true Samples.ann None
    Samples.session0
  = (tt, {| world :=
              extend Samples.world0
                [ EvChannelHistory 5 10;
                  EvChannelSend 5
                    (lit "**Article rewrite (by Ann):**" ++ [nl] ++
                     lit "Helo wrld.it is me") ];
            log := [ Defer true; Did (EvChannelHistory 5 10); Followup will_rewrite;
                     Did (EvChannelSend 5
                            (lit "**Article rewrite (by Ann):**" ++ [nl] ++
                             lit "Helo wrld.it is me")) ] |}).
Proof.
  assert (Ha : absent None) by (left; reflexivity).
  split; [exact Ha|]. split; [reflexivity|]. split; [reflexivity|].
  split; [reflexivity|]. split; [reflexivity|].
  exact (slash_edit_infers_target (Samples.setup_on Samples.env_linked) true
           Samples.ann None Samples.session0 [Samples.bot_answer] []
           Samples.user_message [] Ha eq_refl eq_refl eq_refl eq_refl).
Defined.

Lemma ban_without_permission_denied_witness :
  ban_members (interaction Samples.visitor) = false /\
  user_id (interaction Samples.visitor)
    <> BOT_OWNER_ID (base_env (Samples.setup_on Samples.env_offline)) /\
  cmd_ban (Samples.setup_on Samples.env_offline) Samples.visitor Samples.bob None
    Samples.session0
  = (tt, {| world := extend Samples.world0 [EvRespond no_permission_ban true];
            log := [Did (EvRespond no_permission_ban true)] |}).
Proof.
  assert (Ho : user_id (interaction Samples.visitor)
               <> BOT_OWNER_ID (base_env (Samples.setup_on Samples.env_offline)))
    by discriminate.
  split; [reflexivity|]. split; [exact Ho|].
  exact (ban_without_permission_denied (Samples.setup_on Samples.env_offline)
           Samples.visitor Samples.bob None Samples.session0 eq_refl Ho).
Defined.

Lemma ban_announced_then_attempted_witness :
  may_ban (Samples.setup_on Samples.env_offline) Samples.ann /\
  cmd_ban (Samples.setup_on Samples.env_offline) Samples.ann Samples.bob
    (Some (lit "spam")) Samples.session0
  = (tt, {| world :=
              extend Samples.world0
                [ EvRespond (lit "Sure! I’ll ban Bob immediately for **spam**.") false;
                  EvSleep 1;
                  EvChannelSend 5 (lit "<@11> has been banned. Reason: spam") ];
            log := [ Did (EvRespond (lit "Sure! I’ll ban Bob immediately for **spam**.") false);
                     Did (EvSleep 1);
                     Ban 11 (Some (lit "spam"));
                     Did (EvChannelSend 5 (lit "<@11> has been banned. Reason: spam")) ] |}).
Proof.
  assert (Ha : may_ban (Samples.setup_on Samples.env_offline) Samples.ann)
    by (left; reflexivity).
  split; [exact Ha|].
  exact (ban_announced_then_attempted (Samples.setup_on Samples.env_offline)
           Samples.ann Samples.bob (Some (lit "spam")) Samples.session0 Ha).
Defined.

End CommandsMore.
